(** * Marker Board: the [App] component of whatwe.world

    A shallow embedding of the React component [App] (the second document
    of [src/vite.config.js]): its state variables, the two effects, the
    click/submit/cancel handlers and the realtime insert callback, followed
    by the properties of the placement flow and of the country filter. *)

From Stdlib Require Import ZArith QArith.QArith_base.
From stdpp Require Import base option list strings gmap.

Local Open Scope string_scope.
Local Open Scope list_scope.

(** ** JavaScript values *)

(** The values that travel through the component: rows of the remote table
    and the parsed body of the geocoding response.  Objects and arrays carry
    the reference that [===] and [Set] compare; numbers are the integral
    ones (the component only tests numbers for truthiness and identity, and
    JSON has no NaN). *)
#[warnings="-register-all"]
Inductive value : Type :=
  | VUndefined
  | VNull
  | VBool (b : bool)
  | VNum (n : Z)
  | VStr (s : string)
  | VObj (ref : nat) (props : list (string * value))
  | VArr (ref : nat) (items : list value).

(** What identifies a value for [===] and for membership in a [Set]. *)
Inductive identity : Type :=
  | IUndefined
  | INull
  | IBool (b : bool)
  | INum (n : Z)
  | IStr (s : string)
  | IRef (ref : nat).

#[global] Instance identity_eq_dec : EqDecision identity.
Proof. solve_decision. Defined.

Definition identityOf (v : value) : identity :=
  match v with
  | VUndefined => IUndefined
  | VNull => INull
  | VBool b => IBool b
  | VNum n => INum n
  | VStr s => IStr s
  | VObj r _ => IRef r
  | VArr r _ => IRef r
  end.

(** [a === b] *)
Definition strictEquals (a b : value) : bool :=
  bool_decide (identityOf a = identityOf b).

(** SameValueZero, the comparison of [Set]; it differs from [===] on NaN
    only. *)
Definition sameValueZero (a b : value) : bool := strictEquals a b.

(** [Boolean(v)] *)
Definition toBoolean (v : value) : bool :=
  match v with
  | VUndefined | VNull => false
  | VBool b => b
  | VNum n => negb (n =? 0)%Z
  | VStr s => negb (String.eqb s "")
  | VObj _ _ | VArr _ _ => true
  end.

(** [a || b] *)
Definition jsOr (a b : value) : value := if toBoolean a then a else b.

(** [o.k] for the property names the component reads ([address], [country]):
    an own property of an object, [undefined] on anything else that is not
    null or undefined. *)
Fixpoint lookupProp (k : string) (props : list (string * value)) : value :=
  match props with
  | [] => VUndefined
  | (k', v) :: rest => if String.eqb k k' then v else lookupProp k rest
  end.

Definition getProp (o : value) (k : string) : value :=
  match o with
  | VObj _ props => lookupProp k props
  | _ => VUndefined
  end.

(** [o?.k] *)
Definition optChain (o : value) (k : string) : value :=
  match o with
  | VUndefined | VNull => VUndefined
  | _ => getProp o k
  end.

(** [new Set(xs)] followed by the spread [[...set]]: the elements in
    insertion order, each inserted unless already present. *)
Definition setAdd (s : list value) (v : value) : list value :=
  if existsb (sameValueZero v) s then s else s ++ [v].

Definition newSet (xs : list value) : list value := fold_left setAdd xs [].

(** ** Data model *)

(** A row of the [markers] table as the client reads it. *)
Record marker : Type := Marker {
  m_id : Z;
  m_lat : Q;
  m_lng : Q;
  m_name : string;
  m_message : string;
  m_country : value
}.

(** [e.latlng] and the pending coordinate [clickedPos]. *)
Record latlng : Type := LatLng { lat : Q; lng : Q }.

(** The object passed to [supabase.from('markers').insert]. *)
Record newMarker : Type := NewMarker {
  n_lat : Q;
  n_lng : Q;
  n_name : string;
  n_message : string;
  n_country : value
}.

(** The [useState] cells of [App]. *)
Record AppState : Type := MkApp {
  markers : list marker;
  filteredMarkers : list marker;
  clickedPos : option latlng;
  country : value;
  name : string;
  message : string;
  selectedCountry : string;
  countries : list value
}.

(** The component together with what surrounds it: the session storage,
    the asynchronous calls that were started and have not settled yet, and
    whether a dependency of the filter effect has changed since the effect
    last ran (the render committed in between shows the new [markers] or
    [selectedCountry] with the old [filteredMarkers] and [countries]). *)
Record world : Type := MkWorld {
  ui : AppState;
  sessionStorage : gmap string string;
  lookupsPending : nat;
  insertsPending : nat;
  fetchPending : bool;
  effectPending : bool
}.

(** What a handler does besides updating the state. *)
Inductive action : Type :=
  | Alert (msg : string)
  | ConsoleError (err : string)
  | ReverseGeocode (at_lat at_lng : Q)
  | InsertRow (row : newMarker)
  | UncaughtTypeError.

(** How the [try] block of [handleMapClick] ends. *)
Inductive lookupOutcome : Type :=
  | FetchRejected
  | JsonRejected
  | Parsed (data : value).

(** ** State setters *)

Definition setMarkers (ms : list marker) (s : AppState) : AppState :=
  MkApp ms (filteredMarkers s) (clickedPos s) (country s) (name s)
        (message s) (selectedCountry s) (countries s).
Definition setFilteredMarkers (ms : list marker) (s : AppState) : AppState :=
  MkApp (markers s) ms (clickedPos s) (country s) (name s)
        (message s) (selectedCountry s) (countries s).
Definition setClickedPos (p : option latlng) (s : AppState) : AppState :=
  MkApp (markers s) (filteredMarkers s) p (country s) (name s)
        (message s) (selectedCountry s) (countries s).
Definition setCountry (c : value) (s : AppState) : AppState :=
  MkApp (markers s) (filteredMarkers s) (clickedPos s) c (name s)
        (message s) (selectedCountry s) (countries s).
Definition setName (n : string) (s : AppState) : AppState :=
  MkApp (markers s) (filteredMarkers s) (clickedPos s) (country s) n
        (message s) (selectedCountry s) (countries s).
Definition setMessage (m : string) (s : AppState) : AppState :=
  MkApp (markers s) (filteredMarkers s) (clickedPos s) (country s) (name s)
        m (selectedCountry s) (countries s).
Definition setSelectedCountry (c : string) (s : AppState) : AppState :=
  MkApp (markers s) (filteredMarkers s) (clickedPos s) (country s) (name s)
        (message s) c (countries s).
Definition setCountries (cs : list value) (s : AppState) : AppState :=
  MkApp (markers s) (filteredMarkers s) (clickedPos s) (country s) (name s)
        (message s) (selectedCountry s) cs.

Definition withUi (f : AppState → AppState) (w : world) : world :=
  MkWorld (f (ui w)) (sessionStorage w) (lookupsPending w)
          (insertsPending w) (fetchPending w) (effectPending w).

(** ** Session storage *)

Definition hasPlacedMark : string := "hasPlacedMark".

(** [sessionStorage.getItem(k)], [null] being [None]. *)
Definition getItem (st : gmap string string) (k : string) : option string :=
  st !! k.

(** [sessionStorage.setItem(k, v)] *)
Definition setItem (k v : string) (st : gmap string string)
  : gmap string string := <[k := v]> st.

(** Truthiness of what [getItem] returns. *)
Definition itemTruthy (o : option string) : bool :=
  match o with
  | None => false
  | Some s => negb (String.eqb s "")
  end.

(** ** The filter effect (the second [useEffect]) *)

Definition uniqueCountries (ms : list marker) : list value :=
  newSet (List.filter toBoolean (m_country <$> ms)).

Definition filtered (ms : list marker) (sel : string) : list marker :=
  if negb (String.eqb sel "all")
  then List.filter (λ m, strictEquals (m_country m) (VStr sel)) ms
  else ms.

Definition filterEffect (s : AppState) : AppState :=
  setFilteredMarkers (filtered (markers s) (selectedCountry s))
    (setCountries (uniqueCountries (markers s)) s).

(** ** Handlers *)

(** [handleMapClick] up to its [await]. *)
Definition handleMapClick (e : latlng) (w : world) : world * list action :=
  if itemTruthy (getItem (sessionStorage w) hasPlacedMark)
  then (w, [Alert "You already placed a mark in this session"])
  else
    (MkWorld (setClickedPos (Some (LatLng (lat e) (lng e))) (ui w))
             (sessionStorage w) (S (lookupsPending w))
             (insertsPending w) (fetchPending w)
             (effectPending w),
     [ReverseGeocode (lat e) (lng e)]).

(** The country the [try]/[catch] of [handleMapClick] stores. *)
Definition resolvedCountry (o : lookupOutcome) : value :=
  match o with
  | Parsed data =>
      jsOr (optChain (optChain data "address") "country") (VStr "Unknown")
  | FetchRejected | JsonRejected => VStr "Unknown"
  end.

(** [handleMapClick] from the [await] on. *)
Definition handleMapClickSettled (o : lookupOutcome) (w : world)
  : world * list action :=
  (MkWorld (setCountry (resolvedCountry o) (ui w))
           (sessionStorage w) (pred (lookupsPending w))
           (insertsPending w) (fetchPending w)
             (effectPending w),
   []).

(** [handleSubmit] up to its [await]; reading [clickedPos.lat] of [null]
    throws. *)
Definition handleSubmit (w : world) : world * list action :=
  let s := ui w in
  if String.eqb (name s) "" || String.eqb (message s) ""
  then (w, [Alert "Name and message required"])
  else
    match clickedPos s with
    | None => (w, [UncaughtTypeError])
    | Some p =>
        (MkWorld s (sessionStorage w) (lookupsPending w)
                 (S (insertsPending w)) (fetchPending w)
                 (effectPending w),
         [InsertRow (NewMarker (lat p) (lng p) (name s) (message s)
                               (country s))])
    end.

(** [handleSubmit] from the [await] on; [error] is [null] on success. *)
Definition handleSubmitSettled (error : option string) (w : world)
  : world * list action :=
  match error with
  | Some err =>
      (MkWorld (ui w) (sessionStorage w) (lookupsPending w)
               (pred (insertsPending w)) (fetchPending w)
               (effectPending w),
       [ConsoleError err; Alert "Insert failed"])
  | None =>
      (MkWorld (setMessage "" (setName "" (setClickedPos None (ui w))))
               (setItem hasPlacedMark "true" (sessionStorage w))
               (lookupsPending w) (pred (insertsPending w))
               (fetchPending w) (effectPending w),
       [])
  end.

(** The [onClick] of the Cancel button. *)
Definition handleCancel (w : world) : world * list action :=
  (withUi (setClickedPos None) w, []).

(** The realtime callback: [setMarkers(prev => [...prev, payload.new])].
    A dependency of the filter effect has changed: the effect is due. *)
Definition onInsert (payloadNew : marker) (w : world) : world * list action :=
  (MkWorld (setMarkers (markers (ui w) ++ [payloadNew]) (ui w))
           (sessionStorage w) (lookupsPending w) (insertsPending w)
           (fetchPending w) true,
   []).

(** [fetchMarkers] from the [await] on: [if (!error) setMarkers(data)]. *)
Definition fetchMarkersSettled (res : list marker + string) (w : world)
  : world * list action :=
  match res with
  | inl data =>
      (MkWorld (setMarkers data (ui w)) (sessionStorage w)
               (lookupsPending w) (insertsPending w) false true,
       [])
  | inr _ =>
      (MkWorld (ui w) (sessionStorage w) (lookupsPending w)
               (insertsPending w) false (effectPending w),
       [])
  end.

(** The [onChange] of the header selector: [setSelectedCountry]; the
    filter effect is due when the value differs from the current one. *)
Definition handleSelect (v : string) (w : world) : world * list action :=
  (MkWorld (setSelectedCountry v (ui w)) (sessionStorage w)
           (lookupsPending w) (insertsPending w) (fetchPending w)
           (effectPending w || negb (String.eqb v (selectedCountry (ui w)))),
   []).

(** The filter effect running after a render in which [markers] or
    [selectedCountry] changed: it sets [countries] and [filteredMarkers]. *)
Definition runFilterEffect (w : world) : world * list action :=
  (MkWorld (filterEffect (ui w)) (sessionStorage w) (lookupsPending w)
           (insertsPending w) (fetchPending w) false,
   []).

(** The [onChange] handlers of the two inputs. *)
Definition handleNameInput (v : string) (w : world) : world * list action :=
  (withUi (setName v) w, []).
Definition handleMessageInput (v : string) (w : world)
  : world * list action :=
  (withUi (setMessage v) w, []).

(** ** The component as a transition system *)

Inductive event : Type :=
  | MapClick (e : latlng)
  | LookupSettled (o : lookupOutcome)
  | NameInput (v : string)
  | MessageInput (v : string)
  | SubmitClick
  | SubmitSettled (error : option string)
  | CancelClick
  | CountrySelect (v : string)
  | FetchSettled (res : list marker + string)
  | RemoteInsert (payloadNew : marker)
  | EffectRun.

(** The modal, with its inputs and buttons, is rendered under
    [clickedPos &&]. *)
Definition formOpen (w : world) : bool :=
  match clickedPos (ui w) with Some _ => true | None => false end.

Definition lookupPending (w : world) : bool := (0 <? lookupsPending w)%nat.

(** Whether an event can happen: the controls of the modal exist only
    while it is rendered, a call settles only if it was started, and the
    filter effect runs only when it is due.  The selector is let through
    with any string, which is more than its options offer; the other events
    are let through while the effect is due, which is more than React
    allows. *)
Definition enabled (w : world) (ev : event) : bool :=
  match ev with
  | MapClick _ | CountrySelect _ | RemoteInsert _ => true
  | NameInput _ | MessageInput _ | SubmitClick | CancelClick => formOpen w
  | LookupSettled _ => lookupPending w
  | SubmitSettled _ => (0 <? insertsPending w)%nat
  | FetchSettled _ => fetchPending w
  | EffectRun => effectPending w
  end.

Definition dispatch (ev : event) (w : world) : world * list action :=
  match ev with
  | MapClick e => handleMapClick e w
  | LookupSettled o => handleMapClickSettled o w
  | NameInput v => handleNameInput v w
  | MessageInput v => handleMessageInput v w
  | SubmitClick => handleSubmit w
  | SubmitSettled error => handleSubmitSettled error w
  | CancelClick => handleCancel w
  | CountrySelect v => handleSelect v w
  | FetchSettled res => fetchMarkersSettled res w
  | RemoteInsert m => onInsert m w
  | EffectRun => runFilterEffect w
  end.

Definition step (w : world) (ev : event) : option (world * list action) :=
  if enabled w ev then Some (dispatch ev w) else None.

(** A run of events from a world, with everything the handlers did. *)
Fixpoint run (w : world) (evs : list event) : option (world * list action) :=
  match evs with
  | [] => Some (w, [])
  | ev :: rest =>
      match step w ev with
      | None => None
      | Some (w1, out1) =>
          match run w1 rest with
          | None => None
          | Some (w2, out2) => Some (w2, out1 ++ out2)
          end
      end
  end.

(** The component right after mounting in a session whose storage is [st]:
    the initial [useState] values, the filter effect run once, and
    [fetchMarkers] started. *)
Definition initialState : AppState :=
  MkApp [] [] None (VStr "") "" "" "all" [].

Definition mount (st : gmap string string) : world :=
  MkWorld (filterEffect initialState) st 0 0 true false.

(** ** The visible markers, in the words of the specification *)

#[global] Instance country_is_dec (v : value) (c : string)
  : Decision (v = VStr c).
Proof.
  destruct v as [| | b | n | s | r ps | r xs];
    try (right; discriminate).
  destruct (decide (s = c)) as [->|Hne]; [left; reflexivity|].
  right; intros [=]; contradiction.
Defined.

(** The whole marker list under "all", otherwise the markers of the
    selected country, in their original order. *)
Definition visibleSpec (M : list marker) (s : string) : list marker :=
  if decide (s = "all") then M else filter (λ m, m_country m = VStr s) M.

(** What the filter effect establishes. *)
Definition settled (s : AppState) : Prop :=
  filteredMarkers s = filtered (markers s) (selectedCountry s) ∧
  countries s = uniqueCountries (markers s).

(** ** First-seen positions *)

(** The position of the first occurrence of an identity. *)
Fixpoint firstIndex (k : identity) (ks : list identity) : option nat :=
  match ks with
  | [] => None
  | k' :: rest =>
      if decide (k = k') then Some 0%nat else S <$> firstIndex k rest
  end.

(** The position in [M] of the first marker whose country is [c]. *)
Definition firstSeen (c : value) (M : list marker) : option nat :=
  firstIndex (identityOf c) (identityOf <$> (m_country <$> M)).

(** One iteration of [new Set] over the unfiltered countries. *)
Definition addCountry (acc : list value) (v : value) : list value :=
  if toBoolean v then setAdd acc v else acc.

(** What the set holds once the countries [pre] have been visited. *)
Definition collected (acc pre : list value) : Prop :=
  NoDup (identityOf <$> acc) ∧
  (∀ v, v ∈ pre → toBoolean v = true →
     identityOf v ∈ identityOf <$> acc) ∧
  (∀ (i : nat) c, acc !! i = Some c →
     toBoolean c = true ∧
     ∃ a : nat, firstIndex (identityOf c) (identityOf <$> pre) = Some a ∧
          pre !! a = Some c) ∧
  (∀ (i j : nat) ci cj (a b : nat),
     acc !! i = Some ci → acc !! j = Some cj → (i < j)%nat →
     firstIndex (identityOf ci) (identityOf <$> pre) = Some a →
     firstIndex (identityOf cj) (identityOf <$> pre) = Some b →
     (a < b)%nat).


(** ** The placement flow, in the words of the specification *)

(** Whether this session already placed a marker: the guard of
    [handleMapClick]. *)
Definition placed (w : world) : bool :=
  itemTruthy (getItem (sessionStorage w) hasPlacedMark).

(** The flag as [handleSubmit] writes it. *)
Definition flagWritten (w : world) : Prop :=
  getItem (sessionStorage w) hasPlacedMark = Some "true".

(** The value at the response path [address.country]. *)
Definition addressCountry (data : value) : value :=
  optChain (optChain data "address") "country".

(** The country as the specification words it: the value at
    [address.country] when the lookup succeeds and the path is there,
    "Unknown" when the request fails or the path is absent. *)
Definition countryPerSpec (o : lookupOutcome) : value :=
  match o with
  | Parsed data =>
      match addressCountry data with
      | VUndefined => VStr "Unknown"
      | v => v
      end
  | FetchRejected | JsonRejected => VStr "Unknown"
  end.

(** "The form is never open while the geocode lookup is still pending." *)
Definition formWaitsForLookup (w : world) : Prop :=
  lookupPending w = true → formOpen w = false.

(** "Cancel discards the pending coordinate and the form fields, without
    writing or setting the placement flag." *)
Definition cancelDiscardsForm (w : world) : Prop :=
  ∃ w', step w CancelClick = Some (w', []) ∧
        clickedPos (ui w') = None ∧
        name (ui w') = "" ∧ message (ui w') = "" ∧
        sessionStorage w' = sessionStorage w ∧
        markers (ui w') = markers (ui w).

(** ** A session *)

Definition afterRun (w : world) (evs : list event) : world :=
  match run w evs with
  | Some (w', _) => w'
  | None => w
  end.

Definition examplePos : latlng := LatLng (inject_Z 10) (inject_Z 20).

Definition wakandaBody : value :=
  VObj 0 [("address", VObj 1 [("country", VStr "Wakanda")])].

(** A response whose [address.country] is the empty string. *)
Definition emptyCountryBody : value :=
  VObj 0 [("address", VObj 1 [("country", VStr "")])].

(** A fresh session right after a click on the map. *)
Definition clickedWorld : world := afterRun (mount ∅) [MapClick examplePos].

(** The form open and filled in. *)
Definition filledWorld : world :=
  afterRun clickedWorld
    [LookupSettled (Parsed wakandaBody); NameInput "Ann"; MessageInput "Hi"].

(** The form open with the message still empty. *)
Definition halfFilledWorld : world :=
  afterRun clickedWorld
    [LookupSettled (Parsed wakandaBody); NameInput "Ann"].

(** The write issued and not settled yet. *)
Definition submittedWorld : world := afterRun filledWorld [SubmitClick].

Definition exampleMarker : marker :=
  Marker 1 (inject_Z 10) (inject_Z 20) "Ann" "Hi" (VStr "Wakanda").

(** ** The header *)

(** The count beside a country in the selector:
    [markers.filter(m => m.country === country).length]. *)
Definition optionCount (c : value) (ms : list marker) : nat :=
  length (List.filter (λ m, strictEquals (m_country m) c) ms).

(** "Total Marks" and "Showing". *)
Definition totalMarks (s : AppState) : nat := length (markers s).
Definition showing (s : AppState) : nat := length (filteredMarkers s).


(** ** Calls to the outside *)

(** The actions that reach the geocoder or the remote table. *)
Definition startsCall (a : action) : bool :=
  match a with
  | ReverseGeocode _ _ | InsertRow _ => true
  | Alert _ | ConsoleError _ | UncaughtTypeError => false
  end.

(** The row [handleSubmit] builds from the state. *)
Definition formRow (p : latlng) (s : AppState) : newMarker :=
  NewMarker (lat p) (lng p) (name s) (message s) (country s).

(** The events that bring markers in: the feed and the answered read. *)
Definition feedsMarkers (ev : event) : bool :=
  match ev with
  | RemoteInsert _ | FetchSettled (inl _) => true
  | _ => false
  end.


(** ** The filter effect and the renders before it *)

(** The derived lists are those of the current markers and selection
    whenever the filter effect is not due. *)
Definition upToDate (w : world) : Prop :=
  effectPending w = false → settled (ui w).



(** ** Frames of the placement flow *)

(** Between [w] and [w'] nothing but [country] (and the count of lookups in
    flight) differs. *)
Definition onlyCountryChanged (w w' : world) : Prop :=
  markers (ui w') = markers (ui w) ∧
  filteredMarkers (ui w') = filteredMarkers (ui w) ∧
  clickedPos (ui w') = clickedPos (ui w) ∧
  name (ui w') = name (ui w) ∧
  message (ui w') = message (ui w) ∧
  selectedCountry (ui w') = selectedCountry (ui w) ∧
  countries (ui w') = countries (ui w) ∧
  sessionStorage w' = sessionStorage w ∧
  insertsPending w' = insertsPending w ∧
  fetchPending w' = fetchPending w ∧
  effectPending w' = effectPending w.

(** Between [w] and [w'] nothing but [clickedPos] (and the count of lookups
    in flight) differs. *)
Definition onlyCoordinateChanged (w w' : world) : Prop :=
  markers (ui w') = markers (ui w) ∧
  filteredMarkers (ui w') = filteredMarkers (ui w) ∧
  country (ui w') = country (ui w) ∧
  name (ui w') = name (ui w) ∧
  message (ui w') = message (ui w) ∧
  selectedCountry (ui w') = selectedCountry (ui w) ∧
  countries (ui w') = countries (ui w) ∧
  sessionStorage w' = sessionStorage w ∧
  insertsPending w' = insertsPending w ∧
  fetchPending w' = fetchPending w ∧
  effectPending w' = effectPending w.

(** "When the write fails the flag remains unset and the flow remains in
    FormOpen." *)
Definition failureLeavesFormOpen (w : world) (err : string) : Prop :=
  ∃ w', step w (SubmitSettled (Some err))
        = Some (w', [ConsoleError err; Alert "Insert failed"]) ∧
        placed w' = false ∧ formOpen w' = true.

(** Submit clicked twice, and the first of the two writes has succeeded. *)
Definition twiceSubmittedWorld : world :=
  afterRun filledWorld [SubmitClick; SubmitClick; SubmitSettled None].

(** * Properties *)

(** ** Strict equality and truthiness *)

Lemma strictEquals_spec a b :
  strictEquals a b = true ↔ identityOf a = identityOf b.
Proof. unfold strictEquals. apply bool_decide_eq_true. Qed.

Lemma strictEquals_VStr v c : strictEquals v (VStr c) = true ↔ v = VStr c.
Proof.
  rewrite strictEquals_spec. split; [|intros ->; reflexivity].
  destruct v; simpl; intros [=]; subst; reflexivity.
Qed.

Lemma toBoolean_identity a b :
  identityOf a = identityOf b → toBoolean a = toBoolean b.
Proof. destruct a, b; simpl; intros [=]; subst; reflexivity. Qed.

(** ** The country filter *)

Lemma filtered_all M : filtered M "all" = M.
Proof. reflexivity. Qed.

Lemma filtered_country M s :
  s ≠ "all" → filtered M s = filter (λ m, m_country m = VStr s) M.
Proof.
  intros Hs. unfold filtered.
  apply String.eqb_neq in Hs. rewrite Hs. simpl.
  induction M as [|m M IH]; [reflexivity|].
  simpl. rewrite filter_cons, IH.
  destruct (decide (m_country m = VStr s)) as [Heq|Hne].
  - apply strictEquals_VStr in Heq. rewrite Heq. reflexivity.
  - destruct (strictEquals (m_country m) (VStr s)) eqn:E; [|reflexivity].
    apply strictEquals_VStr in E. contradiction.
Qed.

Lemma filtered_visibleSpec M s : filtered M s = visibleSpec M s.
Proof.
  unfold visibleSpec. destruct (decide (s = "all")) as [->|Hs].
  - apply filtered_all.
  - apply filtered_country, Hs.
Qed.

Lemma filtered_sublist M s : filtered M s `sublist_of` M.
Proof.
  rewrite filtered_visibleSpec. unfold visibleSpec.
  case_decide; [reflexivity|apply sublist_filter].
Qed.

Lemma filterEffect_settled s : settled (filterEffect s).
Proof. split; reflexivity. Qed.

Lemma handleSelect_same v sel :
  String.eqb v sel = true → v = sel.
Proof. apply String.eqb_eq. Qed.

Lemma dispatch_upToDate ev w :
  upToDate w → upToDate (fst (dispatch ev w)).
Proof.
  unfold upToDate. intros Hw.
  destruct ev as [e|o|v|v| |[err|]| |v|[data|err]|m|]; simpl;
    try exact Hw; try discriminate.
  - unfold handleMapClick. case_match; exact Hw.
  - unfold handleSubmit. repeat case_match; exact Hw.
  - intros Hp. apply orb_false_elim in Hp as [Hp Hv].
    apply negb_false_iff, handleSelect_same in Hv. subst v.
    exact (Hw Hp).
  - intros _. apply filterEffect_settled.
Qed.

Lemma step_upToDate w ev w' out :
  step w ev = Some (w', out) → upToDate w → upToDate w'.
Proof.
  unfold step. case_match; [|discriminate].
  intros Hd Hw. pose proof (dispatch_upToDate ev w Hw) as H'.
  destruct (dispatch ev w); simplify_eq. exact H'.
Qed.

Lemma run_upToDate evs : ∀ w w' out,
  run w evs = Some (w', out) → upToDate w → upToDate w'.
Proof.
  induction evs as [|ev evs IH]; simpl; intros w w' out Hrun Hw.
  - simplify_eq. exact Hw.
  - destruct (step w ev) as [[w1 out1]|] eqn:E1; [|discriminate].
    destruct (run w1 evs) as [[w2 out2]|] eqn:E2; [|discriminate].
    simplify_eq. eapply IH; [exact E2|]. eapply step_upToDate; eauto.
Qed.

Lemma mount_upToDate st : upToDate (mount st).
Proof. intros _. apply filterEffect_settled. Qed.



(** ** Runs *)

Lemma run_cons w ev evs w1 out1 w2 out2 :
  step w ev = Some (w1, out1) → run w1 evs = Some (w2, out2) →
  run w (ev :: evs) = Some (w2, out1 ++ out2).
Proof. intros H1 H2. simpl. rewrite H1, H2. reflexivity. Qed.

(** ** The realtime feed *)

Lemma run_inserts ms : ∀ w,
  ∃ w', run w (RemoteInsert <$> ms) = Some (w', []) ∧
        markers (ui w') = markers (ui w) ++ ms ∧
        sessionStorage w' = sessionStorage w.
Proof.
  induction ms as [|m ms IH]; intros w.
  - exists w. simpl. rewrite app_nil_r. auto.
  - destruct (IH (fst (onInsert m w))) as (w' & Hrun & Hms & Hst).
    exists w'. rewrite fmap_cons.
    rewrite (run_cons w (RemoteInsert m) _ (fst (onInsert m w)) [] w' [])
      by (reflexivity || exact Hrun).
    split; [reflexivity|]. rewrite Hms, Hst. simpl.
    rewrite <- app_assoc. auto.
Qed.

(** C10: every insert event is appended to the end of the marker list,
    one entry per event in arrival order, whatever the list already holds;
    two events with the same marker id leave two entries. *)
Theorem realtime_insert_appends :
  (∀ w m, onInsert m w = (fst (onInsert m w), []) ∧
          markers (ui (fst (onInsert m w))) = markers (ui w) ++ [m]) ∧
  (∀ w ms, ∃ w', run w (RemoteInsert <$> ms) = Some (w', []) ∧
     markers (ui w') = markers (ui w) ++ ms ∧
     length (markers (ui w')) = (length (markers (ui w)) + length ms)%nat) ∧
  (∀ w m1 m2, m_id m1 = m_id m2 →
     ∃ w', run w [RemoteInsert m1; RemoteInsert m2] = Some (w', []) ∧
           markers (ui w') = markers (ui w) ++ [m1; m2]) ∧
  (∀ w m, ∃ w', run w [RemoteInsert m; RemoteInsert m] = Some (w', []) ∧
           markers (ui w') = markers (ui w) ++ [m; m]).
Proof.
  split; [intros w m; split; reflexivity|].
  split.
  { intros w ms. destruct (run_inserts ms w) as (w' & Hrun & Hms & _).
    exists w'. rewrite Hms, length_app. auto. }
  split.
  - intros w m1 m2 _.
    destruct (run_inserts [m1; m2] w) as (w' & Hrun & Hms & _). eauto.
  - intros w m.
    destruct (run_inserts [m; m] w) as (w' & Hrun & Hms & _). eauto.
Qed.

(** ** The distinct countries *)

Lemma existsb_sameValueZero v s :
  existsb (sameValueZero v) s = true ↔ identityOf v ∈ identityOf <$> s.
Proof.
  rewrite existsb_exists, list_elem_of_fmap. split.
  - intros (x & Hin & Heq). exists x. split.
    + apply strictEquals_spec, Heq.
    + apply list_elem_of_In, Hin.
  - intros (x & Heq & Hin). exists x. split.
    + apply list_elem_of_In, Hin.
    + apply strictEquals_spec, Heq.
Qed.

Lemma fold_filter_addCountry vs : ∀ acc,
  fold_left setAdd (List.filter toBoolean vs) acc
  = fold_left addCountry vs acc.
Proof.
  induction vs as [|v vs IH]; intros acc; [reflexivity|].
  simpl. unfold addCountry at 2. destruct (toBoolean v); simpl; apply IH.
Qed.

Lemma firstIndex_Some k ks : ∀ a,
  firstIndex k ks = Some a → ks !! a = Some k ∧ (a < length ks)%nat.
Proof.
  induction ks as [|k' ks IH]; simpl; intros a; [discriminate|].
  case_decide as Hk.
  - intros [= <-]. subst. split; [reflexivity|lia].
  - destruct (firstIndex k ks) as [a'|]; [|discriminate].
    intros [= <-]. destruct (IH a' eq_refl). split; [assumption|lia].
Qed.

Lemma firstIndex_None k ks : firstIndex k ks = None ↔ k ∉ ks.
Proof.
  induction ks as [|k' ks IH]; simpl.
  - split; [intros _; apply not_elem_of_nil|reflexivity].
  - rewrite not_elem_of_cons. case_decide as Hk.
    + split; [discriminate|intros [? _]; contradiction].
    + destruct (firstIndex k ks); simpl.
      * split; [discriminate|]. intros [_ Hn].
        destruct IH as [_ IH]. specialize (IH Hn). discriminate.
      * split; [|reflexivity]. intros _. split; [assumption|].
        apply IH. reflexivity.
Qed.

Lemma firstIndex_app_l k ks ks' a :
  firstIndex k ks = Some a → firstIndex k (ks ++ ks') = Some a.
Proof.
  revert a. induction ks as [|k' ks IH]; simpl; intros a; [discriminate|].
  case_decide; [auto|].
  destruct (firstIndex k ks) as [a'|]; [|discriminate].
  intros [= <-]. rewrite (IH a' eq_refl). reflexivity.
Qed.

Lemma firstIndex_snoc_fresh k ks :
  k ∉ ks → firstIndex k (ks ++ [k]) = Some (length ks).
Proof.
  induction ks as [|k' ks IH]; simpl; intros Hn.
  - rewrite decide_True; reflexivity.
  - apply not_elem_of_cons in Hn as [Hne Hn].
    rewrite decide_False by assumption. rewrite (IH Hn). reflexivity.
Qed.

Lemma collected_nil : collected [] [].
Proof.
  repeat split.
  - constructor.
  - intros v Hin. apply elem_of_nil in Hin. contradiction.
  - rewrite lookup_nil in H. discriminate.
  - rewrite lookup_nil in H. discriminate.
  - intros i j ci cj a b Hi. rewrite lookup_nil in Hi. discriminate.
Qed.

(** Visiting a country that adds nothing to the set. *)
Lemma collected_keep acc pre v :
  collected acc pre →
  (toBoolean v = true → identityOf v ∈ identityOf <$> acc) →
  collected acc (pre ++ [v]).
Proof.
  intros (Hnd & Hcov & Hfirst & Hord) Hv.
  split; [exact Hnd|]. split; [|split].
  - intros v' Hin Ht. apply elem_of_app in Hin as [Hin|Hin].
    + apply Hcov; assumption.
    + apply list_elem_of_singleton in Hin. subst v'. apply Hv, Ht.
  - intros i c Hi. destruct (Hfirst i c Hi) as (Ht & a & Ha & Hpre).
    split; [exact Ht|]. exists a. rewrite fmap_app. split.
    + apply firstIndex_app_l, Ha.
    + apply lookup_app_l_Some, Hpre.
  - intros i j ci cj a b Hi Hj Hlt Ha Hb.
    destruct (Hfirst i ci Hi) as (_ & a0 & Ha0 & _).
    destruct (Hfirst j cj Hj) as (_ & b0 & Hb0 & _).
    rewrite fmap_app in Ha, Hb.
    rewrite (firstIndex_app_l _ _ _ _ Ha0) in Ha.
    rewrite (firstIndex_app_l _ _ _ _ Hb0) in Hb.
    simplify_eq. exact (Hord i j ci cj a b Hi Hj Hlt Ha0 Hb0).
Qed.

(** Visiting a truthy country the set does not hold yet. *)
Lemma collected_add acc pre v :
  collected acc pre → toBoolean v = true →
  identityOf v ∉ identityOf <$> acc →
  collected (acc ++ [v]) (pre ++ [v]).
Proof.
  intros (Hnd & Hcov & Hfirst & Hord) Ht Hnew.
  assert (Hfresh : identityOf v ∉ identityOf <$> pre).
  { intros Hin. apply list_elem_of_fmap in Hin as (v' & Heq & Hin).
    apply Hnew. rewrite Heq. apply Hcov; [exact Hin|].
    rewrite <- (toBoolean_identity _ _ Heq). exact Ht. }
  assert (Hv : firstIndex (identityOf v) (identityOf <$> (pre ++ [v]))
               = Some (length pre)).
  { rewrite fmap_app. simpl. rewrite (firstIndex_snoc_fresh _ _ Hfresh).
    rewrite length_fmap. reflexivity. }
  split; [|split; [|split]].
  - rewrite fmap_app. apply NoDup_app. split; [exact Hnd|]. split.
    + intros x Hx Hx'. apply list_elem_of_singleton in Hx'. subst x.
      contradiction.
    + apply NoDup_singleton.
  - intros v' Hin Ht'. rewrite fmap_app. apply elem_of_app.
    apply elem_of_app in Hin as [Hin|Hin].
    + left. apply Hcov; assumption.
    + right. apply list_elem_of_singleton in Hin. subst v'.
      apply list_elem_of_singleton. reflexivity.
  - intros i c Hi. apply lookup_snoc_Some in Hi as [[_ Hi]|[_ <-]].
    + destruct (Hfirst i c Hi) as (Htc & a & Ha & Hpre).
      split; [exact Htc|]. exists a. rewrite fmap_app. split.
      * apply firstIndex_app_l, Ha.
      * apply lookup_app_l_Some, Hpre.
    + split; [exact Ht|]. exists (length pre). split; [exact Hv|].
      apply list_lookup_middle. reflexivity.
  - intros i j ci cj a b Hi Hj Hlt Ha Hb.
    apply lookup_snoc_Some in Hj as [[Hjl Hj]|[-> <-]].
    + rewrite lookup_app_l in Hi by lia.
      destruct (Hfirst i ci Hi) as (_ & a0 & Ha0 & _).
      destruct (Hfirst j cj Hj) as (_ & b0 & Hb0 & _).
      rewrite fmap_app in Ha, Hb.
      rewrite (firstIndex_app_l _ _ _ _ Ha0) in Ha.
      rewrite (firstIndex_app_l _ _ _ _ Hb0) in Hb.
      simplify_eq. exact (Hord i j ci cj a b Hi Hj Hlt Ha0 Hb0).
    + rewrite lookup_app_l in Hi by lia.
      destruct (Hfirst i ci Hi) as (_ & a0 & Ha0 & _).
      rewrite Hv in Hb. rewrite fmap_app in Ha.
      rewrite (firstIndex_app_l _ _ _ _ Ha0) in Ha. simplify_eq.
      apply firstIndex_Some in Ha0 as [_ Hlen].
      rewrite length_fmap in Hlen. exact Hlen.
Qed.

Lemma collected_step acc pre v :
  collected acc pre → collected (addCountry acc v) (pre ++ [v]).
Proof.
  intros Hc. unfold addCountry, setAdd.
  destruct (toBoolean v) eqn:Ht.
  - destruct (existsb (sameValueZero v) acc) eqn:Ex.
    + apply collected_keep; [exact Hc|].
      intros _. apply existsb_sameValueZero, Ex.
    + apply collected_add; [exact Hc|exact Ht|].
      intros Hin. apply existsb_sameValueZero in Hin. congruence.
  - apply collected_keep; [exact Hc|]. intros Ht'. congruence.
Qed.

Lemma collected_fold vs : ∀ acc pre,
  collected acc pre → collected (fold_left addCountry vs acc) (pre ++ vs).
Proof.
  induction vs as [|v vs IH]; intros acc pre Hc; simpl.
  - rewrite app_nil_r. exact Hc.
  - rewrite (cons_middle v pre vs), app_assoc.
    apply IH, collected_step, Hc.
Qed.

Lemma uniqueCountries_collected M :
  collected (uniqueCountries M) (m_country <$> M).
Proof.
  unfold uniqueCountries, newSet. rewrite fold_filter_addCountry.
  exact (collected_fold (m_country <$> M) [] [] collected_nil).
Qed.

Lemma toBoolean_true_nonempty c :
  toBoolean c = true → c ≠ VUndefined ∧ c ≠ VNull ∧ c ≠ VStr "".
Proof. intros Ht. repeat split; intros ->; discriminate. Qed.

(** C9: the distinct-countries list holds no undefined, null or empty
    value and no value twice; every truthy country of a marker is in it;
    and its entries are the first-seen country values, in the order in
    which the markers first show them. *)
Theorem distinct_countries_first_seen (M : list marker) :
  (∀ c, c ∈ uniqueCountries M →
     toBoolean c = true ∧ c ≠ VUndefined ∧ c ≠ VNull ∧ c ≠ VStr "") ∧
  NoDup (identityOf <$> uniqueCountries M) ∧
  NoDup (uniqueCountries M) ∧
  (∀ m, m ∈ M → toBoolean (m_country m) = true →
     ∃ c, c ∈ uniqueCountries M ∧ sameValueZero c (m_country m) = true) ∧
  (∀ (i : nat) c, uniqueCountries M !! i = Some c →
     ∃ (a : nat) m, firstSeen c M = Some a ∧ M !! a = Some m ∧
                    m_country m = c) ∧
  (∀ (i j : nat) ci cj (a b : nat),
     uniqueCountries M !! i = Some ci → uniqueCountries M !! j = Some cj →
     (i < j)%nat → firstSeen ci M = Some a → firstSeen cj M = Some b →
     (a < b)%nat).
Proof.
  destruct (uniqueCountries_collected M) as (Hnd & Hcov & Hfirst & Hord).
  split; [|split; [|split; [|split; [|split]]]].
  - intros c Hin. apply list_elem_of_lookup in Hin as [i Hi].
    destruct (Hfirst i c Hi) as [Ht _].
    split; [exact Ht|]. apply toBoolean_true_nonempty, Ht.
  - exact Hnd.
  - eapply NoDup_fmap_1, Hnd.
  - intros m Hin Ht.
    assert (Hk : identityOf (m_country m)
                 ∈ identityOf <$> uniqueCountries M).
    { apply Hcov; [|exact Ht]. apply list_elem_of_fmap_2, Hin. }
    apply list_elem_of_fmap in Hk as (c & Heq & Hc).
    exists c. split; [exact Hc|].
    apply strictEquals_spec. symmetry. exact Heq.
  - intros i c Hi. destruct (Hfirst i c Hi) as (_ & a & Ha & Hpre).
    rewrite list_lookup_fmap in Hpre.
    destruct (M !! a) as [m|] eqn:Hm; [|discriminate].
    simpl in Hpre. exists a, m. split; [exact Ha|].
    split; [exact Hm|congruence].
  - intros i j ci cj a b Hi Hj Hlt Ha Hb.
    exact (Hord i j ci cj a b Hi Hj Hlt Ha Hb).
Qed.

(** ** A whole session *)

(** Click at (10, 20), the lookup answers "Wakanda", Ann writes "Hi" and
    submits, the write succeeds and the feed echoes the row; a later click
    is refused. *)
Example session_actions :
  snd <$> run (mount ∅)
            [MapClick examplePos; LookupSettled (Parsed wakandaBody);
             NameInput "Ann"; MessageInput "Hi"; SubmitClick;
             SubmitSettled None; RemoteInsert exampleMarker;
             MapClick examplePos]
  = Some [ReverseGeocode (inject_Z 10) (inject_Z 20);
          InsertRow (NewMarker (inject_Z 10) (inject_Z 20) "Ann" "Hi"
                               (VStr "Wakanda"));
          Alert "You already placed a mark in this session"].
Proof. vm_compute. reflexivity. Qed.

(** ** The placement guard *)

Lemma step_Some w ev w' out :
  step w ev = Some (w', out) ↔ enabled w ev = true ∧ dispatch ev w = (w', out).
Proof.
  unfold step. destruct (enabled w ev); split.
  - intros [= H]. auto.
  - intros [_ ->]. reflexivity.
  - discriminate.
  - intros [? _]. discriminate.
Qed.

Lemma handleMapClick_placed e w :
  placed w = true →
  handleMapClick e w
  = (w, [Alert "You already placed a mark in this session"]).
Proof. unfold placed, handleMapClick. intros ->. reflexivity. Qed.

Lemma handleMapClick_fresh e w :
  placed w = false →
  handleMapClick e w
  = (MkWorld (setClickedPos (Some e) (ui w)) (sessionStorage w)
             (S (lookupsPending w)) (insertsPending w) (fetchPending w)
             (effectPending w),
     [ReverseGeocode (lat e) (lng e)]).
Proof.
  unfold placed, handleMapClick. intros ->. destruct e. reflexivity.
Qed.

Lemma flagWritten_placed w : flagWritten w → placed w = true.
Proof. unfold flagWritten, placed. intros ->. reflexivity. Qed.

Lemma dispatch_flagWritten ev w :
  flagWritten w → flagWritten (fst (dispatch ev w)).
Proof.
  unfold flagWritten. intros Hw.
  destruct ev as [e|o|v|v| |[err|]| |v|[data|err]|m|]; simpl; try exact Hw.
  - unfold handleMapClick. case_match; exact Hw.
  - unfold handleSubmit. repeat case_match; exact Hw.
  - unfold getItem, setItem. apply lookup_insert_eq.
Qed.

Lemma run_flagWritten evs : ∀ w w' out,
  run w evs = Some (w', out) → flagWritten w → flagWritten w'.
Proof.
  induction evs as [|ev evs IH]; simpl; intros w w' out Hrun Hw.
  - simplify_eq. exact Hw.
  - destruct (step w ev) as [[w1 out1]|] eqn:E1; [|discriminate].
    destruct (run w1 evs) as [[w2 out2]|] eqn:E2; [|discriminate].
    simplify_eq. eapply IH; [exact E2|].
    apply step_Some in E1 as [_ E1].
    pose proof (dispatch_flagWritten ev w Hw) as H'.
    rewrite E1 in H'. exact H'.
Qed.

(** C2: once a submit has succeeded, whatever happens next in the session,
    a click on the map only raises the alert: the world is left as it was,
    so no lookup is started and no row is written. *)
Theorem placement_refused_after_success w0 w1 out1 evs w2 out2 e :
  step w0 (SubmitSettled None) = Some (w1, out1) →
  run w1 evs = Some (w2, out2) →
  placed w2 = true ∧
  step w2 (MapClick e)
  = Some (w2, [Alert "You already placed a mark in this session"]).
Proof.
  intros Hok Hrun.
  assert (Hw1 : flagWritten w1).
  { apply step_Some in Hok as [_ Hok]. simpl in Hok. simplify_eq.
    unfold flagWritten, getItem, setItem. simpl. apply lookup_insert_eq. }
  pose proof (flagWritten_placed _ (run_flagWritten _ _ _ _ Hrun Hw1)) as Hp.
  split; [exact Hp|].
  apply step_Some. split; [reflexivity|].
  apply handleMapClick_placed, Hp.
Qed.

Lemma placement_refused_after_success_witness :
  placed (afterRun submittedWorld
            [SubmitSettled None; RemoteInsert exampleMarker]) = true ∧
  step (afterRun submittedWorld
          [SubmitSettled None; RemoteInsert exampleMarker])
       (MapClick examplePos)
  = Some (afterRun submittedWorld
            [SubmitSettled None; RemoteInsert exampleMarker],
          [Alert "You already placed a mark in this session"]).
Proof.
  apply (placement_refused_after_success submittedWorld
           (afterRun submittedWorld [SubmitSettled None]) []
           [RemoteInsert exampleMarker] _ []).
  - vm_compute. reflexivity.
  - vm_compute. reflexivity.
Defined.

(** ** Submit *)

(** C3: with an empty name or an empty message, submit only raises the
    alert: nothing is written and the world, with the placement flag, the
    pending coordinate and the fields, is left as it was. *)
Theorem empty_submit_rejected w :
  name (ui w) = "" ∨ message (ui w) = "" →
  handleSubmit w = (w, [Alert "Name and message required"]) ∧
  (formOpen w = true →
   step w SubmitClick = Some (w, [Alert "Name and message required"])).
Proof.
  intros Hempty.
  assert (H : handleSubmit w = (w, [Alert "Name and message required"])).
  { unfold handleSubmit. destruct Hempty as [-> | ->]; simpl.
    - reflexivity.
    - rewrite orb_true_r. reflexivity. }
  split; [exact H|]. intros Hopen. apply step_Some. auto.
Qed.

Lemma empty_submit_rejected_witness :
  handleSubmit halfFilledWorld
  = (halfFilledWorld, [Alert "Name and message required"]) ∧
  (formOpen halfFilledWorld = true →
   step halfFilledWorld SubmitClick
   = Some (halfFilledWorld, [Alert "Name and message required"])).
Proof.
  apply (empty_submit_rejected halfFilledWorld).
  right. vm_compute. reflexivity.
Defined.

(** Against C4 as worded: with submit clicked twice and the first write
    succeeded, the failure of the second write arrives with the flag set
    and the form closed, and leaves them so. *)
Lemma write_failure_after_success :
  run filledWorld [SubmitClick; SubmitClick; SubmitSettled None]
  = Some (twiceSubmittedWorld,
          [InsertRow (formRow examplePos (ui filledWorld));
           InsertRow (formRow examplePos (ui filledWorld))]) ∧
  (∃ w', step twiceSubmittedWorld (SubmitSettled (Some "timeout"))
         = Some (w', [ConsoleError "timeout"; Alert "Insert failed"]) ∧
         placed w' = true ∧ formOpen w' = false) ∧
  ¬ failureLeavesFormOpen twiceSubmittedWorld "timeout".
Proof.
  split; [vm_compute; reflexivity|]. split.
  - eexists. split; [vm_compute; reflexivity|]. split; reflexivity.
  - intros (w' & Hstep & Hp & _).
    apply step_Some in Hstep as [_ Hd].
    pose proof (f_equal fst Hd) as Hw. simpl in Hw. subst w'.
    vm_compute in Hp. discriminate.
Qed.

(** C4, as the code has it: when the write fails, the error is logged and
    an alert raised, and nothing else happens: the component state and the
    session storage are what they were when the failure arrived.  The flag,
    if unset, stays unset; the form, if open, stays open with its
    coordinate, its fields and its submit button. *)
Theorem write_failure_keeps_form w err :
  (0 < insertsPending w)%nat →
  ∃ w', step w (SubmitSettled (Some err))
        = Some (w', [ConsoleError err; Alert "Insert failed"]) ∧
        ui w' = ui w ∧
        sessionStorage w' = sessionStorage w ∧
        lookupsPending w' = lookupsPending w ∧
        fetchPending w' = fetchPending w ∧
        effectPending w' = effectPending w ∧
        placed w' = placed w ∧
        formOpen w' = formOpen w ∧
        clickedPos (ui w') = clickedPos (ui w) ∧
        name (ui w') = name (ui w) ∧
        message (ui w') = message (ui w) ∧
        country (ui w') = country (ui w) ∧
        (placed w = false → placed w' = false) ∧
        (formOpen w = true →
         formOpen w' = true ∧ enabled w' SubmitClick = true).
Proof.
  intros Hpend. eexists. split.
  - apply step_Some. split; [|reflexivity].
    simpl. apply Nat.ltb_lt, Hpend.
  - simpl. repeat split; auto.
Qed.

Lemma write_failure_keeps_form_witness :
  ∃ w', step submittedWorld (SubmitSettled (Some "timeout"))
        = Some (w', [ConsoleError "timeout"; Alert "Insert failed"]) ∧
        ui w' = ui submittedWorld ∧
        sessionStorage w' = sessionStorage submittedWorld ∧
        lookupsPending w' = lookupsPending submittedWorld ∧
        fetchPending w' = fetchPending submittedWorld ∧
        effectPending w' = effectPending submittedWorld ∧
        placed w' = placed submittedWorld ∧
        formOpen w' = formOpen submittedWorld ∧
        clickedPos (ui w') = clickedPos (ui submittedWorld) ∧
        name (ui w') = name (ui submittedWorld) ∧
        message (ui w') = message (ui submittedWorld) ∧
        country (ui w') = country (ui submittedWorld) ∧
        (placed submittedWorld = false → placed w' = false) ∧
        (formOpen submittedWorld = true →
         formOpen w' = true ∧ enabled w' SubmitClick = true).
Proof.
  apply (write_failure_keeps_form submittedWorld "timeout").
  vm_compute. lia.
Defined.

Lemma handleSubmitSettled_success_keeps_country w :
  country (ui (fst (handleSubmitSettled None w))) = country (ui w).
Proof. reflexivity. Qed.

(** C5: when the write succeeds, the placement flag is set, name and
    message are cleared and the pending coordinate is dropped, which
    closes the form. *)
Theorem write_success_closes_form w :
  (0 < insertsPending w)%nat →
  ∃ w', step w (SubmitSettled None) = Some (w', []) ∧
        getItem (sessionStorage w') hasPlacedMark = Some "true" ∧
        placed w' = true ∧
        name (ui w') = "" ∧
        message (ui w') = "" ∧
        clickedPos (ui w') = None ∧
        formOpen w' = false.
Proof.
  intros Hpend. eexists. split.
  - apply step_Some. split; [|reflexivity].
    simpl. apply Nat.ltb_lt, Hpend.
  - assert (Hget : getItem (setItem hasPlacedMark "true" (sessionStorage w))
                     hasPlacedMark = Some "true")
      by apply lookup_insert_eq.
    unfold placed. simpl. rewrite Hget. repeat split.
Qed.

Lemma write_success_closes_form_witness :
  ∃ w', step submittedWorld (SubmitSettled None) = Some (w', []) ∧
        getItem (sessionStorage w') hasPlacedMark = Some "true" ∧
        placed w' = true ∧
        name (ui w') = "" ∧
        message (ui w') = "" ∧
        clickedPos (ui w') = None ∧
        formOpen w' = false.
Proof.
  apply (write_success_closes_form submittedWorld). vm_compute. lia.
Defined.

(** ** Geocoding *)

(** Against C6 as worded: a response with an empty [address.country] has
    the path, and the stored country is "Unknown", not the value there. *)
Lemma geocode_empty_country_unknown :
  ∃ w', step clickedWorld (LookupSettled (Parsed emptyCountryBody))
        = Some (w', []) ∧
        addressCountry emptyCountryBody = VStr "" ∧
        country (ui w') = VStr "Unknown" ∧
        country (ui w') ≠ countryPerSpec (Parsed emptyCountryBody).
Proof.
  eexists. split; [vm_compute; reflexivity|].
  split; [reflexivity|]. split; [reflexivity|]. vm_compute. discriminate.
Qed.

Lemma settle_onlyCountryChanged o w :
  onlyCountryChanged w (fst (handleMapClickSettled o w)).
Proof. repeat split. Qed.

Lemma click_onlyCoordinateChanged e w :
  placed w = false → onlyCoordinateChanged w (fst (handleMapClick e w)).
Proof.
  intros Hp. rewrite (handleMapClick_fresh e w Hp). repeat split.
Qed.

(** C6, as the code has it: when the lookup settles, country becomes the
    value at [address.country] if that value is truthy, and "Unknown" if
    the request or the parsing failed or the value is missing or falsy;
    nothing else changes, so the form opened by the click is still open. *)
Theorem geocode_country_or_unknown :
  (∀ w o, lookupPending w = true →
     ∃ w', step w (LookupSettled o) = Some (w', []) ∧
           ui w' = setCountry (resolvedCountry o) (ui w) ∧
           onlyCountryChanged w w' ∧
           lookupsPending w' = pred (lookupsPending w) ∧
           formOpen w' = formOpen w ∧
           match o with
           | Parsed data =>
               if toBoolean (addressCountry data)
               then country (ui w') = addressCountry data
               else country (ui w') = VStr "Unknown"
           | FetchRejected | JsonRejected =>
               country (ui w') = VStr "Unknown"
           end) ∧
  (∀ data, addressCountry data = VUndefined →
     resolvedCountry (Parsed data) = VStr "Unknown") ∧
  (∀ w e o, placed w = false →
     ∃ w1 w2,
       step w (MapClick e) = Some (w1, [ReverseGeocode (lat e) (lng e)]) ∧
       step w1 (LookupSettled o) = Some (w2, []) ∧
       onlyCoordinateChanged w w1 ∧
       onlyCountryChanged w1 w2 ∧
       formOpen w2 = true ∧
       clickedPos (ui w2) = Some e ∧
       country (ui w2) = resolvedCountry o).
Proof.
  split; [|split].
  - intros w o Hpend. eexists. split.
    + apply step_Some. split; [exact Hpend|reflexivity].
    + split; [reflexivity|].
      split; [apply settle_onlyCountryChanged|].
      split; [reflexivity|]. split; [reflexivity|]. simpl.
      destruct o as [| |data]; try reflexivity.
      unfold resolvedCountry, jsOr, addressCountry.
      destruct (toBoolean _); reflexivity.
  - intros data Hd. unfold resolvedCountry, jsOr.
    unfold addressCountry in Hd. rewrite Hd. reflexivity.
  - intros w e o Hp. eexists. eexists. split.
    + apply step_Some. split; [reflexivity|].
      apply handleMapClick_fresh, Hp.
    + split; [apply step_Some; split; reflexivity|].
      split.
      { pose proof (click_onlyCoordinateChanged e w Hp) as H.
        rewrite (handleMapClick_fresh e w Hp) in H. exact H. }
      split; [apply settle_onlyCountryChanged|].
      simpl. repeat split.
Qed.

(** ** When the form opens *)

(** Against C7 as worded: right after the click of a fresh session the
    lookup is in flight and the form is open. *)
Lemma form_open_while_lookup_pending :
  run (mount ∅) [MapClick examplePos]
  = Some (clickedWorld, [ReverseGeocode (inject_Z 10) (inject_Z 20)]) ∧
  lookupPending clickedWorld = true ∧
  formOpen clickedWorld = true ∧
  ¬ formWaitsForLookup clickedWorld.
Proof.
  split; [vm_compute; reflexivity|].
  split; [reflexivity|]. split; [reflexivity|].
  intros H. specialize (H eq_refl). vm_compute in H. discriminate.
Qed.

Lemma dispatch_opens_form ev w :
  formOpen w = false → formOpen (fst (dispatch ev w)) = true →
  ∃ e, ev = MapClick e ∧ placed w = false.
Proof.
  intros Hclosed Hopen.
  destruct ev as [e|o|v|v| |[err|]| |v|[data|err]|m|]; simpl in Hopen;
    try (unfold formOpen in *; simpl in *; congruence).
  - exists e. split; [reflexivity|].
    destruct (placed w) eqn:Hp; [|reflexivity].
    rewrite (handleMapClick_placed e w Hp) in Hopen. simpl in Hopen.
    congruence.
  - unfold handleSubmit in Hopen.
    repeat case_match; simpl in Hopen; unfold formOpen in *; simpl in *;
      congruence.
Qed.

(** C7, as the code has it: the click that passes the guard records the
    coordinate, starts the lookup and opens the form at once, changing
    nothing else, so the form is open while the lookup is pending; the
    lookup, when it settles, sets country and nothing else, so the form
    stays open; and nothing but such a click opens the form. *)
Theorem form_opens_on_click :
  (∀ w e, placed w = false →
     ∃ w1,
       step w (MapClick e) = Some (w1, [ReverseGeocode (lat e) (lng e)]) ∧
       ui w1 = setClickedPos (Some e) (ui w) ∧
       onlyCoordinateChanged w w1 ∧
       lookupsPending w1 = S (lookupsPending w) ∧
       clickedPos (ui w1) = Some e ∧
       formOpen w1 = true ∧
       lookupPending w1 = true ∧
       ∀ o, ∃ w2, step w1 (LookupSettled o) = Some (w2, []) ∧
                  ui w2 = setCountry (resolvedCountry o) (ui w1) ∧
                  onlyCountryChanged w1 w2 ∧
                  lookupsPending w2 = lookupsPending w ∧
                  formOpen w2 = true ∧
                  clickedPos (ui w2) = Some e) ∧
  (∀ w ev w' out,
     step w ev = Some (w', out) → formOpen w = false → formOpen w' = true →
     ∃ e, ev = MapClick e ∧ placed w = false ∧ lookupPending w' = true).
Proof.
  split.
  - intros w e Hp. eexists. split.
    + apply step_Some. split; [reflexivity|].
      apply handleMapClick_fresh, Hp.
    + split; [reflexivity|]. split.
      { pose proof (click_onlyCoordinateChanged e w Hp) as H.
        rewrite (handleMapClick_fresh e w Hp) in H. exact H. }
      split; [reflexivity|]. split; [reflexivity|].
      split; [reflexivity|]. split; [reflexivity|].
      intros o. eexists. split; [apply step_Some; split; reflexivity|].
      split; [reflexivity|]. split; [apply settle_onlyCountryChanged|].
      simpl. repeat split.
  - intros w ev w' out Hstep Hclosed Hopen.
    apply step_Some in Hstep as [_ Hd].
    destruct (dispatch_opens_form ev w Hclosed) as (e & -> & Hp).
    { rewrite Hd. exact Hopen. }
    exists e. split; [reflexivity|]. split; [exact Hp|].
    simpl in Hd. rewrite (handleMapClick_fresh e w Hp) in Hd.
    simplify_eq. reflexivity.
Qed.

(** ** Cancel *)

(** Against C8 as worded: cancelling the filled form leaves the name and
    the message in place. *)
Lemma cancel_keeps_fields :
  formOpen filledWorld = true ∧
  name (ui (fst (handleCancel filledWorld))) = "Ann" ∧
  message (ui (fst (handleCancel filledWorld))) = "Hi" ∧
  ¬ cancelDiscardsForm filledWorld.
Proof.
  split; [reflexivity|]. split; [reflexivity|]. split; [reflexivity|].
  intros (w' & Hstep & _ & Hname & _).
  apply step_Some in Hstep as [_ Hd].
  pose proof (f_equal fst Hd) as Hw. simpl in Hw. subst w'.
  vm_compute in Hname. discriminate.
Qed.

(** C8, as the code has it: cancel drops the pending coordinate, which
    closes the form; it writes nothing, leaves the placement flag and the
    marker lists alone, and keeps name, message and country as they were. *)
Theorem cancel_closes_form w :
  formOpen w = true →
  ∃ w', step w CancelClick = Some (w', []) ∧
        clickedPos (ui w') = None ∧
        formOpen w' = false ∧
        sessionStorage w' = sessionStorage w ∧
        placed w' = placed w ∧
        insertsPending w' = insertsPending w ∧
        lookupsPending w' = lookupsPending w ∧
        markers (ui w') = markers (ui w) ∧
        filteredMarkers (ui w') = filteredMarkers (ui w) ∧
        name (ui w') = name (ui w) ∧
        message (ui w') = message (ui w) ∧
        country (ui w') = country (ui w).
Proof.
  intros Hopen. eexists. split.
  - apply step_Some. split; [exact Hopen|reflexivity].
  - simpl. repeat split.
Qed.

Lemma cancel_closes_form_witness :
  ∃ w', step filledWorld CancelClick = Some (w', []) ∧
        clickedPos (ui w') = None ∧
        formOpen w' = false ∧
        sessionStorage w' = sessionStorage filledWorld ∧
        placed w' = placed filledWorld ∧
        insertsPending w' = insertsPending filledWorld ∧
        lookupsPending w' = lookupsPending filledWorld ∧
        markers (ui w') = markers (ui filledWorld) ∧
        filteredMarkers (ui w') = filteredMarkers (ui filledWorld) ∧
        name (ui w') = name (ui filledWorld) ∧
        message (ui w') = message (ui filledWorld) ∧
        country (ui w') = country (ui filledWorld).
Proof.
  apply (cancel_closes_form filledWorld). vm_compute. reflexivity.
Defined.

(** * Further properties of the component *)

(** ** Submitting the form *)

Lemma handleSubmit_row w p :
  clickedPos (ui w) = Some p → name (ui w) ≠ "" → message (ui w) ≠ "" →
  handleSubmit w
  = (MkWorld (ui w) (sessionStorage w) (lookupsPending w)
             (S (insertsPending w)) (fetchPending w)
                 (effectPending w),
     [InsertRow (formRow p (ui w))]).
Proof.
  intros Hp Hn Hm. unfold handleSubmit.
  apply String.eqb_neq in Hn. apply String.eqb_neq in Hm.
  rewrite Hn, Hm, Hp. reflexivity.
Qed.

Lemma step_submit_row w p :
  clickedPos (ui w) = Some p → name (ui w) ≠ "" → message (ui w) ≠ "" →
  step w SubmitClick
  = Some (MkWorld (ui w) (sessionStorage w) (lookupsPending w)
                  (S (insertsPending w)) (fetchPending w)
                 (effectPending w),
          [InsertRow (formRow p (ui w))]).
Proof.
  intros Hp Hn Hm. apply step_Some. split.
  - simpl. unfold formOpen. rewrite Hp. reflexivity.
  - simpl. apply handleSubmit_row; assumption.
Qed.

(** With the form open and both fields filled in, submit sends one row
    made of the pending coordinate, the name, the message and the country,
    and changes nothing on the board: the form stays open, the flag and
    the marker lists are as before. *)
Theorem submit_writes_form_row w p :
  clickedPos (ui w) = Some p → name (ui w) ≠ "" → message (ui w) ≠ "" →
  ∃ w', step w SubmitClick = Some (w', [InsertRow (formRow p (ui w))]) ∧
        n_lat (formRow p (ui w)) = lat p ∧
        n_lng (formRow p (ui w)) = lng p ∧
        ui w' = ui w ∧
        sessionStorage w' = sessionStorage w ∧
        insertsPending w' = S (insertsPending w) ∧
        formOpen w' = true.
Proof.
  intros Hp Hn Hm. eexists. split.
  - apply step_submit_row; assumption.
  - repeat split. unfold formOpen. simpl. rewrite Hp. reflexivity.
Qed.

Lemma submit_writes_form_row_witness :
  ∃ w', step filledWorld SubmitClick
        = Some (w', [InsertRow (formRow examplePos (ui filledWorld))]) ∧
        n_lat (formRow examplePos (ui filledWorld)) = lat examplePos ∧
        n_lng (formRow examplePos (ui filledWorld)) = lng examplePos ∧
        ui w' = ui filledWorld ∧
        sessionStorage w' = sessionStorage filledWorld ∧
        insertsPending w' = S (insertsPending filledWorld) ∧
        formOpen w' = true.
Proof.
  apply (submit_writes_form_row filledWorld examplePos).
  - vm_compute. reflexivity.
  - vm_compute. discriminate.
  - vm_compute. discriminate.
Defined.

(** Nothing holds back a second submit while the first write is in flight:
    two clicks on the button send the same row twice. *)
Theorem double_submit_writes_twice w p :
  clickedPos (ui w) = Some p → name (ui w) ≠ "" → message (ui w) ≠ "" →
  ∃ w', run w [SubmitClick; SubmitClick]
        = Some (w', [InsertRow (formRow p (ui w));
                     InsertRow (formRow p (ui w))]) ∧
        insertsPending w' = S (S (insertsPending w)) ∧
        ui w' = ui w.
Proof.
  intros Hp Hn Hm.
  pose proof (step_submit_row w p Hp Hn Hm) as H1.
  set (w1 := MkWorld (ui w) (sessionStorage w) (lookupsPending w)
                     (S (insertsPending w)) (fetchPending w)
                     (effectPending w)) in H1.
  pose proof (step_submit_row w1 p Hp Hn Hm) as H2.
  eexists. split.
  - change [InsertRow (formRow p (ui w)); InsertRow (formRow p (ui w))]
      with ([InsertRow (formRow p (ui w))]
            ++ ([InsertRow (formRow p (ui w1))] ++ [])).
    eapply (run_cons w SubmitClick [SubmitClick]); [exact H1|].
    eapply (run_cons w1 SubmitClick []); [exact H2|reflexivity].
  - split; reflexivity.
Qed.

Lemma double_submit_writes_twice_witness :
  ∃ w', run filledWorld [SubmitClick; SubmitClick]
        = Some (w', [InsertRow (formRow examplePos (ui filledWorld));
                     InsertRow (formRow examplePos (ui filledWorld))]) ∧
        insertsPending w' = S (S (insertsPending filledWorld)) ∧
        ui w' = ui filledWorld.
Proof.
  apply (double_submit_writes_twice filledWorld examplePos).
  - vm_compute. reflexivity.
  - vm_compute. discriminate.
  - vm_compute. discriminate.
Defined.

(** ** Whole placements *)

#[local] Arguments getItem : simpl never.
#[local] Arguments setItem : simpl never.

Lemma run_app evs1 : ∀ w evs2 w1 out1 w2 out2,
  run w evs1 = Some (w1, out1) → run w1 evs2 = Some (w2, out2) →
  run w (evs1 ++ evs2) = Some (w2, out1 ++ out2).
Proof.
  induction evs1 as [|ev evs1 IH]; intros w evs2 w1 out1 w2 out2 H1 H2.
  - simpl in H1. simplify_eq. exact H2.
  - simpl in H1.
    destruct (step w ev) as [[wa outa]|] eqn:Ea; [|discriminate].
    destruct (run wa evs1) as [[wb outb]|] eqn:Eb; [|discriminate].
    simplify_eq. rewrite <- app_comm_cons, <- app_assoc.
    eapply run_cons; [exact Ea|]. eapply IH; eauto.
Qed.

Lemma eqb_empty_false s : s ≠ "" → String.eqb s "" = false.
Proof. apply String.eqb_neq. Qed.

(** Unfolds a run over a world given by its fields. *)
Ltac play Hp :=
  unfold placed in Hp; simpl in Hp;
  unfold run, step; simpl; unfold handleMapClick, handleSubmit; simpl;
  repeat (rewrite Hp; simpl).

(** A submit made before the lookup settles goes out at once, with the
    country the state held before the click (the empty string in a fresh
    session), and the lookup is still in flight afterwards. *)
Theorem submit_before_lookup_settles w e n m :
  placed w = false → n ≠ "" → m ≠ "" →
  ∃ w', run w [MapClick e; NameInput n; MessageInput m; SubmitClick]
        = Some (w', [ReverseGeocode (lat e) (lng e);
                     InsertRow (NewMarker (lat e) (lng e) n m
                                          (country (ui w)))]) ∧
        lookupPending w' = true ∧
        formOpen w' = true.
Proof.
  intros Hp Hn Hm.
  apply eqb_empty_false in Hn. apply eqb_empty_false in Hm.
  destruct w as [[ms fm cp c n0 m0 sel cs] st lp ip fp ep].
  play Hp. rewrite Hn, Hm. simpl. eexists. repeat split.
Qed.

Lemma submit_before_lookup_settles_witness :
  ∃ w', run (mount ∅)
          [MapClick examplePos; NameInput "Ann"; MessageInput "Hi";
           SubmitClick]
        = Some (w', [ReverseGeocode (lat examplePos) (lng examplePos);
                     InsertRow (NewMarker (lat examplePos) (lng examplePos)
                                  "Ann" "Hi" (country (ui (mount ∅))))]) ∧
        lookupPending w' = true ∧
        formOpen w' = true.
Proof.
  apply (submit_before_lookup_settles (mount ∅) examplePos "Ann" "Hi").
  - vm_compute. reflexivity.
  - discriminate.
  - discriminate.
Defined.

(** A whole placement: click, lookup settled, fields typed, submit, write
    succeeded.  One lookup and one row go out, the row carrying the clicked
    coordinate, the typed fields and the country the lookup resolved to
    ("Unknown" when it failed); afterwards the flag is set and the form is
    closed, and the marker lists are as before: the new marker is not added
    locally. *)
Theorem placement_end_to_end w e o n m :
  placed w = false → n ≠ "" → m ≠ "" →
  ∃ w', run w [MapClick e; LookupSettled o; NameInput n; MessageInput m;
               SubmitClick; SubmitSettled None]
        = Some (w', [ReverseGeocode (lat e) (lng e);
                     InsertRow (NewMarker (lat e) (lng e) n m
                                          (resolvedCountry o))]) ∧
        placed w' = true ∧
        formOpen w' = false ∧
        markers (ui w') = markers (ui w) ∧
        filteredMarkers (ui w') = filteredMarkers (ui w).
Proof.
  intros Hp Hn Hm.
  apply eqb_empty_false in Hn. apply eqb_empty_false in Hm.
  destruct w as [[ms fm cp c n0 m0 sel cs] st lp ip fp ep].
  play Hp. rewrite Hn, Hm. simpl. eexists.
  split; [reflexivity|]. split; [|repeat split].
  unfold placed, getItem, setItem. simpl. rewrite lookup_insert_eq.
  reflexivity.
Qed.

Lemma placement_end_to_end_witness :
  ∃ w', run (mount ∅)
          [MapClick examplePos; LookupSettled FetchRejected;
           NameInput "Ann"; MessageInput "Hi"; SubmitClick;
           SubmitSettled None]
        = Some (w', [ReverseGeocode (lat examplePos) (lng examplePos);
                     InsertRow (NewMarker (lat examplePos) (lng examplePos)
                                  "Ann" "Hi"
                                  (resolvedCountry FetchRejected))]) ∧
        placed w' = true ∧
        formOpen w' = false ∧
        markers (ui w') = markers (ui (mount ∅)) ∧
        filteredMarkers (ui w') = filteredMarkers (ui (mount ∅)).
Proof.
  apply (placement_end_to_end (mount ∅) examplePos FetchRejected "Ann" "Hi").
  - vm_compute. reflexivity.
  - discriminate.
  - discriminate.
Defined.

(** A second click while the form is open moves the pending coordinate and
    starts another lookup; each lookup that settles overwrites the country,
    so the country shown is that of the response delivered last, whichever
    click it answers.  The typed fields are kept. *)
Theorem second_click_moves_coordinate w e1 e2 oa ob :
  placed w = false →
  ∃ w', run w [MapClick e1; MapClick e2; LookupSettled oa; LookupSettled ob]
        = Some (w', [ReverseGeocode (lat e1) (lng e1);
                     ReverseGeocode (lat e2) (lng e2)]) ∧
        clickedPos (ui w') = Some e2 ∧
        country (ui w') = resolvedCountry ob ∧
        name (ui w') = name (ui w) ∧
        message (ui w') = message (ui w) ∧
        lookupsPending w' = lookupsPending w.
Proof.
  intros Hp.
  destruct w as [[ms fm cp c n0 m0 sel cs] st lp ip fp ep].
  play Hp. destruct e2. eexists. repeat split.
Qed.

Lemma second_click_moves_coordinate_witness :
  ∃ w', run (mount ∅)
          [MapClick examplePos; MapClick (LatLng (inject_Z 30) (inject_Z 40));
           LookupSettled JsonRejected; LookupSettled (Parsed wakandaBody)]
        = Some (w', [ReverseGeocode (lat examplePos) (lng examplePos);
                     ReverseGeocode (inject_Z 30) (inject_Z 40)]) ∧
        clickedPos (ui w') = Some (LatLng (inject_Z 30) (inject_Z 40)) ∧
        country (ui w') = resolvedCountry (Parsed wakandaBody) ∧
        name (ui w') = name (ui (mount ∅)) ∧
        message (ui w') = message (ui (mount ∅)) ∧
        lookupsPending w' = lookupsPending (mount ∅).
Proof.
  apply (second_click_moves_coordinate (mount ∅) examplePos
           (LatLng (inject_Z 30) (inject_Z 40)) JsonRejected
           (Parsed wakandaBody)).
  vm_compute. reflexivity.
Defined.

(** What was typed survives a cancel: the next click reopens the form at
    the new coordinate with the same name, message and country. *)
Theorem draft_survives_cancel w e :
  formOpen w = true → placed w = false →
  ∃ w', run w [CancelClick; MapClick e]
        = Some (w', [ReverseGeocode (lat e) (lng e)]) ∧
        formOpen w' = true ∧
        clickedPos (ui w') = Some e ∧
        name (ui w') = name (ui w) ∧
        message (ui w') = message (ui w) ∧
        country (ui w') = country (ui w).
Proof.
  intros Hopen Hp.
  destruct w as [[ms fm cp c n0 m0 sel cs] st lp ip fp ep].
  unfold formOpen in Hopen. simpl in Hopen.
  play Hp. unfold formOpen. simpl.
  destruct cp; [|discriminate]. simpl. rewrite Hp. simpl.
  destruct e. eexists. repeat split.
Qed.

Lemma draft_survives_cancel_witness :
  ∃ w', run filledWorld [CancelClick; MapClick examplePos]
        = Some (w', [ReverseGeocode (lat examplePos) (lng examplePos)]) ∧
        formOpen w' = true ∧
        clickedPos (ui w') = Some examplePos ∧
        name (ui w') = name (ui filledWorld) ∧
        message (ui w') = message (ui filledWorld) ∧
        country (ui w') = country (ui filledWorld).
Proof.
  apply (draft_survives_cancel filledWorld examplePos).
  - vm_compute. reflexivity.
  - vm_compute. reflexivity.
Defined.

(** ** What a session never does *)

Lemma step_after_success w ev w' out :
  step w ev = Some (w', out) → flagWritten w → formOpen w = false →
  flagWritten w' ∧ formOpen w' = false ∧
  Forall (λ a, startsCall a = false) out.
Proof.
  intros Hstep Hflag Hclosed. apply step_Some in Hstep as [Hen Hd].
  destruct ev as [e|o|v|v| |[err|]| |v|[data|err]|m|]; simpl in Hen, Hd;
    try congruence.
  - rewrite (handleMapClick_placed e w (flagWritten_placed w Hflag)) in Hd.
    simplify_eq. repeat split; auto.
  - unfold handleMapClickSettled in Hd. simplify_eq. repeat split; auto.
  - simplify_eq. repeat split; auto.
  - simplify_eq. split; [|split; [reflexivity|constructor]].
    unfold flagWritten, getItem, setItem. simpl. apply lookup_insert_eq.
  - unfold handleSelect in Hd. simplify_eq. repeat split; auto.
  - unfold fetchMarkersSettled in Hd. simplify_eq. repeat split; auto.
  - unfold fetchMarkersSettled in Hd. simplify_eq. repeat split; auto.
  - unfold onInsert in Hd. simplify_eq. repeat split; auto.
  - unfold runFilterEffect in Hd. simplify_eq. repeat split; auto.
Qed.

Lemma run_after_success evs : ∀ w w' out,
  run w evs = Some (w', out) → flagWritten w → formOpen w = false →
  flagWritten w' ∧ formOpen w' = false ∧
  Forall (λ a, startsCall a = false) out.
Proof.
  induction evs as [|ev evs IH]; simpl; intros w w' out Hrun Hflag Hclosed.
  - simplify_eq. auto.
  - destruct (step w ev) as [[w1 out1]|] eqn:E1; [|discriminate].
    destruct (run w1 evs) as [[w2 out2]|] eqn:E2; [|discriminate].
    simplify_eq.
    destruct (step_after_success _ _ _ _ E1 Hflag Hclosed) as (F1 & C1 & A1).
    destruct (IH _ _ _ E2 F1 C1) as (F2 & C2 & A2).
    split; [exact F2|]. split; [exact C2|]. apply Forall_app. auto.
Qed.

(** After a write has succeeded the form never opens again in the session,
    and nothing that happens afterwards reaches the geocoder or the remote
    table: no lookup and no further row. *)
Theorem no_call_after_success w0 w1 out1 evs w2 out2 :
  step w0 (SubmitSettled None) = Some (w1, out1) →
  run w1 evs = Some (w2, out2) →
  formOpen w2 = false ∧ Forall (λ a, startsCall a = false) out2.
Proof.
  intros Hok Hrun. apply step_Some in Hok as [_ Hok]. simpl in Hok.
  simplify_eq.
  destruct (run_after_success _ _ _ _ Hrun) as (_ & Hc & Ha);
    [|reflexivity|auto].
  unfold flagWritten, getItem, setItem. simpl. apply lookup_insert_eq.
Qed.

Lemma no_call_after_success_witness :
  formOpen (afterRun submittedWorld
              [SubmitSettled None; MapClick examplePos;
               RemoteInsert exampleMarker; CountrySelect "Wakanda"])
  = false ∧
  Forall (λ a, startsCall a = false)
         [Alert "You already placed a mark in this session"].
Proof.
  apply (no_call_after_success submittedWorld
           (afterRun submittedWorld [SubmitSettled None]) []
           [MapClick examplePos; RemoteInsert exampleMarker;
            CountrySelect "Wakanda"]).
  - vm_compute. reflexivity.
  - vm_compute. reflexivity.
Defined.

Ltac open_handlers H :=
  unfold handleMapClickSettled, handleNameInput, handleMessageInput,
    handleSubmitSettled, handleCancel, handleSelect, fetchMarkersSettled,
    onInsert, runFilterEffect, withUi in H.

Lemma step_storage w ev w' out :
  step w ev = Some (w', out) →
  sessionStorage w' = sessionStorage w ∨
  (ev = SubmitSettled None ∧
   sessionStorage w' = setItem hasPlacedMark "true" (sessionStorage w)).
Proof.
  intros Hstep. apply step_Some in Hstep as [_ Hd].
  destruct ev as [e|o|v|v| |[err|]| |v|[data|err']|m|]; simpl in Hd;
    open_handlers Hd;
    try (simplify_eq; left; reflexivity).
  - unfold handleMapClick in Hd. case_match; simplify_eq; left; reflexivity.
  - unfold handleSubmit in Hd.
    repeat case_match; simplify_eq; left; reflexivity.
  - simplify_eq. right. split; reflexivity.
Qed.

(** The session storage is written by a successful write and by nothing
    else: a run without one leaves it exactly as it was. *)
Theorem storage_unchanged_without_success evs : ∀ w w' out,
  run w evs = Some (w', out) → SubmitSettled None ∉ evs →
  sessionStorage w' = sessionStorage w.
Proof.
  induction evs as [|ev evs IH]; simpl; intros w w' out Hrun Hnot.
  - simplify_eq. reflexivity.
  - destruct (step w ev) as [[w1 out1]|] eqn:E1; [|discriminate].
    destruct (run w1 evs) as [[w2 out2]|] eqn:E2; [|discriminate].
    simplify_eq. apply not_elem_of_cons in Hnot as [Hne Hnot].
    rewrite (IH _ _ _ E2 Hnot).
    destruct (step_storage _ _ _ _ E1) as [H|[H _]]; [exact H|].
    congruence.
Qed.

Lemma storage_unchanged_without_success_witness :
  sessionStorage submittedWorld = sessionStorage (mount ∅).
Proof.
  apply (storage_unchanged_without_success
           [MapClick examplePos; LookupSettled (Parsed wakandaBody);
            NameInput "Ann"; MessageInput "Hi"; SubmitClick]
           (mount ∅) submittedWorld
           [ReverseGeocode (inject_Z 10) (inject_Z 20);
            InsertRow (NewMarker (inject_Z 10) (inject_Z 20) "Ann" "Hi"
                                 (VStr "Wakanda"))]).
  - vm_compute. reflexivity.
  - intros H.
    repeat (apply elem_of_cons in H as [H|H]; [discriminate|]).
    apply elem_of_nil in H. exact H.
Defined.

(** Whatever happens, every key of the session storage other than
    [hasPlacedMark] keeps its value, and [hasPlacedMark] either keeps its
    value or becomes "true". *)
Theorem storage_other_keys_untouched evs : ∀ w w' out,
  run w evs = Some (w', out) →
  (∀ k, k ≠ hasPlacedMark →
     getItem (sessionStorage w') k = getItem (sessionStorage w) k) ∧
  (getItem (sessionStorage w') hasPlacedMark
     = getItem (sessionStorage w) hasPlacedMark ∨
   getItem (sessionStorage w') hasPlacedMark = Some "true").
Proof.
  induction evs as [|ev evs IH]; simpl; intros w w' out Hrun.
  - simplify_eq. auto.
  - destruct (step w ev) as [[w1 out1]|] eqn:E1; [|discriminate].
    destruct (run w1 evs) as [[w2 out2]|] eqn:E2; [|discriminate].
    simplify_eq. destruct (IH _ _ _ E2) as [Hk Hf].
    destruct (step_storage _ _ _ _ E1) as [H|[_ H]].
    + rewrite H in Hk, Hf. auto.
    + split.
      * intros k Hne. rewrite (Hk k Hne), H.
        unfold getItem, setItem. apply lookup_insert_ne. congruence.
      * right. destruct Hf as [Hf|Hf]; [|exact Hf].
        rewrite Hf, H. unfold getItem, setItem. apply lookup_insert_eq.
Qed.

Lemma storage_other_keys_untouched_witness :
  (∀ k, k ≠ hasPlacedMark →
     getItem (sessionStorage (afterRun submittedWorld [SubmitSettled None])) k
     = getItem (sessionStorage submittedWorld) k) ∧
  (getItem (sessionStorage (afterRun submittedWorld [SubmitSettled None]))
           hasPlacedMark
     = getItem (sessionStorage submittedWorld) hasPlacedMark ∨
   getItem (sessionStorage (afterRun submittedWorld [SubmitSettled None]))
           hasPlacedMark = Some "true").
Proof.
  apply (storage_other_keys_untouched [SubmitSettled None] submittedWorld
           (afterRun submittedWorld [SubmitSettled None]) []).
  vm_compute. reflexivity.
Defined.

Lemma step_no_type_error w ev w' out :
  step w ev = Some (w', out) → Forall (λ a, a ≠ UncaughtTypeError) out.
Proof.
  intros Hstep. apply step_Some in Hstep as [Hen Hd].
  destruct ev as [e|o|v|v| |[err|]| |v|[data|err']|m|]; simpl in Hen, Hd;
    open_handlers Hd;
    try (simplify_eq; repeat constructor; discriminate).
  - unfold handleMapClick in Hd.
    case_match; simplify_eq; repeat constructor; discriminate.
  - unfold handleSubmit in Hd. unfold formOpen in Hen.
    destruct (clickedPos (ui w)); [|discriminate].
    case_match; simplify_eq; repeat constructor; discriminate.
Qed.

(** The submit handler never reads the coordinate of a closed form: its
    button exists only while [clickedPos] is set, so no run raises the
    TypeError of [clickedPos.lat] on [null]. *)
Theorem submit_never_reads_null evs : ∀ w w' out,
  run w evs = Some (w', out) → UncaughtTypeError ∉ out.
Proof.
  induction evs as [|ev evs IH]; simpl; intros w w' out Hrun.
  - simplify_eq. apply not_elem_of_nil.
  - destruct (step w ev) as [[w1 out1]|] eqn:E1; [|discriminate].
    destruct (run w1 evs) as [[w2 out2]|] eqn:E2; [|discriminate].
    simplify_eq. intros Hin. apply elem_of_app in Hin as [Hin|Hin].
    + pose proof (step_no_type_error _ _ _ _ E1) as Hall.
      rewrite Forall_forall in Hall. exact (Hall _ Hin eq_refl).
    + exact (IH _ _ _ E2 Hin).
Qed.

Lemma submit_never_reads_null_witness :
  UncaughtTypeError
  ∉ [ReverseGeocode (inject_Z 10) (inject_Z 20);
     InsertRow (NewMarker (inject_Z 10) (inject_Z 20) "Ann" "Hi"
                          (VStr "Wakanda"))].
Proof.
  apply (submit_never_reads_null
           [MapClick examplePos; LookupSettled (Parsed wakandaBody);
            NameInput "Ann"; MessageInput "Hi"; SubmitClick]
           (mount ∅) submittedWorld).
  vm_compute. reflexivity.
Defined.

Lemma step_markers w ev w' out :
  step w ev = Some (w', out) → feedsMarkers ev = false →
  markers (ui w') = markers (ui w).
Proof.
  intros Hstep Hev. apply step_Some in Hstep as [_ Hd].
  destruct ev as [e|o|v|v| |[err|]| |v|[data|err]|m|]; simpl in Hd, Hev;
    open_handlers Hd;
    try discriminate; try (simplify_eq; reflexivity).
  - unfold handleMapClick in Hd. case_match; simplify_eq; reflexivity.
  - unfold handleSubmit in Hd. repeat case_match; simplify_eq; reflexivity.
Qed.

(** Only the feed and the answered initial read change the marker list: a
    run of anything else (clicks, typing, submits and their outcomes,
    cancels, selections, a failed read) leaves it as it was, so a placed
    marker is never added locally. *)
Theorem markers_change_only_by_feed evs : ∀ w w' out,
  run w evs = Some (w', out) →
  Forall (λ ev, feedsMarkers ev = false) evs →
  markers (ui w') = markers (ui w).
Proof.
  induction evs as [|ev evs IH]; simpl; intros w w' out Hrun Hall.
  - simplify_eq. reflexivity.
  - destruct (step w ev) as [[w1 out1]|] eqn:E1; [|discriminate].
    destruct (run w1 evs) as [[w2 out2]|] eqn:E2; [|discriminate].
    simplify_eq. apply Forall_cons in Hall as [Hev Hall].
    rewrite (IH _ _ _ E2 Hall). exact (step_markers _ _ _ _ E1 Hev).
Qed.

Lemma markers_change_only_by_feed_witness :
  markers (ui (afterRun submittedWorld [SubmitSettled None]))
  = markers (ui (mount ∅)).
Proof.
  apply (markers_change_only_by_feed
           [MapClick examplePos; LookupSettled (Parsed wakandaBody);
            NameInput "Ann"; MessageInput "Hi"; SubmitClick;
            SubmitSettled None]
           (mount ∅) (afterRun submittedWorld [SubmitSettled None])
           [ReverseGeocode (inject_Z 10) (inject_Z 20);
            InsertRow (NewMarker (inject_Z 10) (inject_Z 20) "Ann" "Hi"
                                 (VStr "Wakanda"))]).
  - vm_compute. reflexivity.
  - repeat constructor.
Defined.

(** ** The geocoded country *)

(** Whatever the lookup brings, the country it stores is truthy, so never
    empty, null or undefined; a body that is not an object, or whose
    [address] is not an object, gives "Unknown". *)
Theorem lookup_country_never_empty :
  (∀ o, toBoolean (resolvedCountry o) = true) ∧
  (∀ w o w' out, step w (LookupSettled o) = Some (w', out) →
     toBoolean (country (ui w')) = true ∧ country (ui w') ≠ VStr "") ∧
  (∀ data, (∀ r ps, data ≠ VObj r ps) →
     resolvedCountry (Parsed data) = VStr "Unknown") ∧
  (∀ r ps, (∀ r' ps', lookupProp "address" ps ≠ VObj r' ps') →
     resolvedCountry (Parsed (VObj r ps)) = VStr "Unknown").
Proof.
  assert (Htruthy : ∀ o, toBoolean (resolvedCountry o) = true).
  { intros [| |data]; try reflexivity.
    unfold resolvedCountry, jsOr.
    destruct (toBoolean (optChain (optChain data "address") "country"))
      eqn:E; [exact E|reflexivity]. }
  split; [exact Htruthy|]. split; [|split].
  - intros w o w' out Hstep. apply step_Some in Hstep as [_ Hd].
    simpl in Hd. unfold handleMapClickSettled in Hd. simplify_eq. simpl.
    split; [apply Htruthy|].
    intros Heq. pose proof (Htruthy o) as Ht. rewrite Heq in Ht.
    discriminate.
  - intros data Hno. destruct data; try reflexivity.
    exfalso. eapply Hno. reflexivity.
  - intros r ps Hno. unfold resolvedCountry. simpl.
    destruct (lookupProp "address" ps) eqn:E; try reflexivity.
    exfalso. eapply Hno. reflexivity.
Qed.

(** ** The initial read and the feed *)

Lemma run_inserts_frame ms : ∀ w,
  ∃ w', run w (RemoteInsert <$> ms) = Some (w', []) ∧
        markers (ui w') = markers (ui w) ++ ms ∧
        sessionStorage w' = sessionStorage w ∧
        fetchPending w' = fetchPending w ∧
        clickedPos (ui w') = clickedPos (ui w).
Proof.
  induction ms as [|m ms IH]; intros w.
  - exists w. simpl. rewrite app_nil_r. auto.
  - destruct (IH (fst (onInsert m w))) as (w' & Hrun & Hms & Hst & Hf & Hc).
    exists w'. rewrite fmap_cons.
    rewrite (run_cons w (RemoteInsert m) _ (fst (onInsert m w)) [] w' [])
      by (reflexivity || exact Hrun).
    split; [reflexivity|]. rewrite Hms, Hst, Hf, Hc. simpl.
    rewrite <- app_assoc. auto.
Qed.

(** When the initial read fails nothing is raised or logged and the board
    starts empty; the feed still fills it afterwards. *)
Theorem failed_read_leaves_board_empty st err ms :
  ∃ w0 w',
    run (mount st) [FetchSettled (inr err)] = Some (w0, []) ∧
    markers (ui w0) = [] ∧ filteredMarkers (ui w0) = [] ∧
    sessionStorage w0 = st ∧
    run w0 (RemoteInsert <$> ms) = Some (w', []) ∧
    markers (ui w') = ms.
Proof.
  eexists.
  destruct (run_inserts_frame ms
              (fst (fetchMarkersSettled (inr err) (mount st))))
    as (w' & Hrun & Hms & _).
  exists w'. split; [reflexivity|].
  split; [reflexivity|]. split; [reflexivity|]. split; [reflexivity|].
  split; [exact Hrun|exact Hms].
Qed.

(** The answer to the initial read replaces the marker list: markers the
    feed delivered before it are gone unless the answer holds them, and
    markers the feed delivers after it follow the answer in order. *)
Theorem answered_read_replaces_list w ms data ms' :
  fetchPending w = true →
  ∃ w', run w ((RemoteInsert <$> ms)
               ++ FetchSettled (inl data) :: (RemoteInsert <$> ms'))
        = Some (w', []) ∧
        markers (ui w') = data ++ ms'.
Proof.
  intros Hpend.
  destruct (run_inserts_frame ms w) as (w1 & H1 & _ & _ & Hf1 & _).
  destruct (run_inserts_frame ms'
              (fst (fetchMarkersSettled (inl data) w1)))
    as (w2 & H2 & Hms2 & _).
  exists w2. split; [|exact Hms2].
  change (@nil action) with (@nil action ++ ([] ++ [])).
  eapply run_app; [exact H1|].
  eapply run_cons; [|exact H2].
  apply step_Some. split; [|reflexivity].
  simpl. rewrite Hf1. exact Hpend.
Qed.

Lemma answered_read_replaces_list_witness :
  ∃ w', run (mount ∅)
          ((RemoteInsert <$> [exampleMarker])
           ++ FetchSettled (inl []) :: (RemoteInsert <$> [exampleMarker]))
        = Some (w', []) ∧
        markers (ui w') = [] ++ [exampleMarker].
Proof.
  apply (answered_read_replaces_list (mount ∅) [exampleMarker] []
           [exampleMarker]).
  reflexivity.
Defined.

(** ** The selector and the counters *)

(** Along every run of the mounted component, whenever the filter effect
    is not due, the selector lists the distinct countries of the current
    markers: each option is the truthy country of some marker on the
    board. *)
Theorem countries_follow_markers st evs w out :
  run (mount st) evs = Some (w, out) → effectPending w = false →
  countries (ui w) = uniqueCountries (markers (ui w)) ∧
  (∀ c, c ∈ countries (ui w) →
     toBoolean c = true ∧ ∃ m, m ∈ markers (ui w) ∧ m_country m = c).
Proof.
  intros Hrun Hdone.
  destruct (run_upToDate evs _ _ _ Hrun (mount_upToDate st) Hdone)
    as [_ Hc].
  split; [exact Hc|]. intros c Hin. rewrite Hc in Hin.
  destruct (uniqueCountries_collected (markers (ui w)))
    as (_ & _ & Hfirst & _).
  apply list_elem_of_lookup in Hin as [i Hi].
  destruct (Hfirst i c Hi) as (Ht & a & _ & Hpre).
  split; [exact Ht|].
  rewrite list_lookup_fmap in Hpre.
  destruct (markers (ui w) !! a) as [m|] eqn:Hm; [|discriminate].
  exists m. split; [|simpl in Hpre; congruence].
  apply list_elem_of_lookup. exists a. exact Hm.
Qed.

Lemma countries_follow_markers_witness :
  countries (ui (afterRun (mount ∅) [RemoteInsert exampleMarker; EffectRun]))
  = uniqueCountries
      (markers (ui (afterRun (mount ∅)
                      [RemoteInsert exampleMarker; EffectRun]))) ∧
  (∀ c, c ∈ countries (ui (afterRun (mount ∅)
                             [RemoteInsert exampleMarker; EffectRun])) →
     toBoolean c = true ∧
     ∃ m, m ∈ markers (ui (afterRun (mount ∅)
                             [RemoteInsert exampleMarker; EffectRun])) ∧
          m_country m = c).
Proof.
  apply (countries_follow_markers ∅ [RemoteInsert exampleMarker; EffectRun]
           (afterRun (mount ∅) [RemoteInsert exampleMarker; EffectRun]) []).
  - reflexivity.
  - reflexivity.
Defined.

Lemma uniqueCountries_snoc M m :
  uniqueCountries (M ++ [m]) = addCountry (uniqueCountries M) (m_country m).
Proof.
  unfold uniqueCountries, newSet. rewrite !fold_filter_addCountry.
  rewrite fmap_app, fold_left_app. reflexivity.
Qed.

Lemma addCountry_prefix vs : ∀ acc,
  acc `prefix_of` fold_left addCountry vs acc.
Proof.
  induction vs as [|v vs IH]; intros acc; simpl; [reflexivity|].
  transitivity (addCountry acc v); [|apply IH].
  unfold addCountry, setAdd. repeat case_match; try reflexivity.
  exists [v]. reflexivity.
Qed.

(** The selector only grows at its end: a new marker leaves the list of
    countries alone when its country is falsy or already listed, and
    appends its country otherwise, so the options never move or vanish as
    markers arrive. *)
Theorem countries_only_grow :
  (∀ M m, toBoolean (m_country m) = false →
     uniqueCountries (M ++ [m]) = uniqueCountries M) ∧
  (∀ M m, identityOf (m_country m) ∈ identityOf <$> uniqueCountries M →
     uniqueCountries (M ++ [m]) = uniqueCountries M) ∧
  (∀ M m, toBoolean (m_country m) = true →
     identityOf (m_country m) ∉ identityOf <$> uniqueCountries M →
     uniqueCountries (M ++ [m]) = uniqueCountries M ++ [m_country m]) ∧
  (∀ M ms, uniqueCountries M `prefix_of` uniqueCountries (M ++ ms)).
Proof.
  split; [|split; [|split]].
  - intros M m Hf. rewrite uniqueCountries_snoc. unfold addCountry.
    rewrite Hf. reflexivity.
  - intros M m Hin. rewrite uniqueCountries_snoc. unfold addCountry, setAdd.
    apply existsb_sameValueZero in Hin. rewrite Hin.
    destruct (toBoolean _); reflexivity.
  - intros M m Ht Hnot. rewrite uniqueCountries_snoc.
    unfold addCountry, setAdd. rewrite Ht.
    destruct (existsb _ _) eqn:E; [|reflexivity].
    apply existsb_sameValueZero in E. contradiction.
  - intros M ms. unfold uniqueCountries, newSet.
    rewrite !fold_filter_addCountry, fmap_app, fold_left_app.
    apply addCountry_prefix.
Qed.











Lemma optionCount_positive c M m :
  m ∈ M → strictEquals (m_country m) c = true → (1 ≤ optionCount c M)%nat.
Proof.
  intros Hin Heq. unfold optionCount.
  assert (Hf : In m (List.filter (λ m, strictEquals (m_country m) c) M)).
  { apply filter_In. split; [apply list_elem_of_In, Hin|exact Heq]. }
  destruct (List.filter _ M); [destruct Hf|simpl; lia].
Qed.

(** Choosing a string [s] other than "all" and other than the current
    selection shows, once the filter effect has run, exactly the markers
    whose country is the string [s]: as many as the count the selector
    writes for the string country [s], at least one when that string is
    listed; the marker list itself is not touched. *)
Theorem selection_matches_option_count w s :
  s ≠ "all" → s ≠ selectedCountry (ui w) →
  ∃ w', run w [CountrySelect s; EffectRun] = Some (w', []) ∧
        filteredMarkers (ui w')
        = filter (λ m, m_country m = VStr s) (markers (ui w)) ∧
        showing (ui w') = optionCount (VStr s) (markers (ui w')) ∧
        (VStr s ∈ uniqueCountries (markers (ui w)) →
         (1 ≤ showing (ui w'))%nat) ∧
        markers (ui w') = markers (ui w) ∧
        selectedCountry (ui w') = s.
Proof.
  intros Hs Hnew.
  pose proof (filtered_country (markers (ui w)) s Hs) as Hfilter.
  apply String.eqb_neq in Hs. apply String.eqb_neq in Hnew.
  assert (Hshow : length (filtered (markers (ui w)) s)
                  = optionCount (VStr s) (markers (ui w))).
  { unfold filtered. rewrite Hs. reflexivity. }
  eexists. split.
  { unfold run, step. simpl. rewrite Hnew, orb_true_r. reflexivity. }
  unfold showing. simpl.
  split; [exact Hfilter|]. split; [exact Hshow|].
  split; [|split; reflexivity].
  intros Hin. rewrite Hshow.
  destruct (uniqueCountries_collected (markers (ui w)))
    as (_ & _ & Hfirst & _).
  apply list_elem_of_lookup in Hin as [i Hi].
  destruct (Hfirst i _ Hi) as (_ & a & _ & Hpre).
  rewrite list_lookup_fmap in Hpre.
  destruct (markers (ui w) !! a) as [m|] eqn:Hm; [|discriminate].
  simpl in Hpre. apply (optionCount_positive _ _ m).
  - apply list_elem_of_lookup. exists a. exact Hm.
  - apply strictEquals_spec. congruence.
Qed.

Lemma selection_matches_option_count_witness :
  ∃ w', run (afterRun (mount ∅) [RemoteInsert exampleMarker; EffectRun])
            [CountrySelect "Wakanda"; EffectRun] = Some (w', []) ∧
        filteredMarkers (ui w')
        = filter (λ m, m_country m = VStr "Wakanda")
            (markers (ui (afterRun (mount ∅)
                            [RemoteInsert exampleMarker; EffectRun]))) ∧
        showing (ui w') = optionCount (VStr "Wakanda") (markers (ui w')) ∧
        (VStr "Wakanda"
           ∈ uniqueCountries
               (markers (ui (afterRun (mount ∅)
                               [RemoteInsert exampleMarker; EffectRun])))
         → (1 ≤ showing (ui w'))%nat) ∧
        markers (ui w')
        = markers (ui (afterRun (mount ∅)
                         [RemoteInsert exampleMarker; EffectRun])) ∧
        selectedCountry (ui w') = "Wakanda".
Proof.
  apply (selection_matches_option_count
           (afterRun (mount ∅) [RemoteInsert exampleMarker; EffectRun])
           "Wakanda").
  - discriminate.
  - vm_compute. discriminate.
Defined.

(** Along every run of the mounted component, whenever the filter effect
    is not due, "Showing" does not exceed "Total Marks", and the two agree
    while the selection is "all". *)
Theorem showing_at_most_total st evs w out :
  run (mount st) evs = Some (w, out) → effectPending w = false →
  (showing (ui w) ≤ totalMarks (ui w))%nat ∧
  (selectedCountry (ui w) = "all" → showing (ui w) = totalMarks (ui w)).
Proof.
  intros Hrun Hdone.
  destruct (run_upToDate evs _ _ _ Hrun (mount_upToDate st) Hdone)
    as [Hf _].
  unfold showing, totalMarks. rewrite Hf. split.
  - apply sublist_length, filtered_sublist.
  - intros ->. rewrite filtered_all. reflexivity.
Qed.

Lemma showing_at_most_total_witness :
  (showing (ui (afterRun (mount ∅)
                  [RemoteInsert exampleMarker; CountrySelect "France";
                   EffectRun]))
   ≤ totalMarks (ui (afterRun (mount ∅)
                  [RemoteInsert exampleMarker; CountrySelect "France";
                   EffectRun])))%nat ∧
  (selectedCountry (ui (afterRun (mount ∅)
                  [RemoteInsert exampleMarker; CountrySelect "France";
                   EffectRun]))
   = "all" →
   showing (ui (afterRun (mount ∅)
                  [RemoteInsert exampleMarker; CountrySelect "France";
                   EffectRun]))
   = totalMarks (ui (afterRun (mount ∅)
                  [RemoteInsert exampleMarker; CountrySelect "France";
                   EffectRun]))).
Proof.
  apply (showing_at_most_total ∅
           [RemoteInsert exampleMarker; CountrySelect "France"; EffectRun]
           (afterRun (mount ∅)
              [RemoteInsert exampleMarker; CountrySelect "France";
               EffectRun]) []).
  - reflexivity.
  - reflexivity.
Defined.

(** ** A tab that has already placed *)

Lemma step_locked w ev w' out :
  step w ev = Some (w', out) → placed w = true → formOpen w = false →
  placed w' = true ∧ formOpen w' = false ∧
  Forall (λ a, startsCall a = false) out.
Proof.
  intros Hstep Hp Hclosed. apply step_Some in Hstep as [Hen Hd].
  destruct ev as [e|o|v|v| |[err|]| |v|[data|err]|m|]; simpl in Hen, Hd;
    try congruence; open_handlers Hd.
  - rewrite (handleMapClick_placed e w Hp) in Hd.
    simplify_eq. repeat split; auto.
  - simplify_eq. repeat split; auto.
  - simplify_eq. repeat split; auto.
  - simplify_eq. split; [|split; [reflexivity|constructor]].
    unfold placed, getItem, setItem. simpl. rewrite lookup_insert_eq.
    reflexivity.
  - simplify_eq. repeat split; auto.
  - simplify_eq. repeat split; auto.
  - simplify_eq. repeat split; auto.
  - simplify_eq. repeat split; auto.
  - simplify_eq. repeat split; auto.
Qed.

(** The flag outlives a reload of the tab: a component mounted in a session
    whose storage already holds a truthy [hasPlacedMark] never opens the
    form and never reaches the geocoder or the remote table, whatever the
    visitor does. *)
Theorem locked_session_stays_locked st evs w out :
  itemTruthy (getItem st hasPlacedMark) = true →
  run (mount st) evs = Some (w, out) →
  placed w = true ∧ formOpen w = false ∧
  Forall (λ a, startsCall a = false) out.
Proof.
  intros Hst.
  assert (Hinv : ∀ evs w0 w1 out1,
            run w0 evs = Some (w1, out1) →
            placed w0 = true → formOpen w0 = false →
            placed w1 = true ∧ formOpen w1 = false ∧
            Forall (λ a, startsCall a = false) out1).
  { clear. induction evs as [|ev evs IH]; simpl; intros w0 w1 out1 Hrun Hp Hc.
    - simplify_eq. auto.
    - destruct (step w0 ev) as [[wa outa]|] eqn:Ea; [|discriminate].
      destruct (run wa evs) as [[wb outb]|] eqn:Eb; [|discriminate].
      simplify_eq.
      destruct (step_locked _ _ _ _ Ea Hp Hc) as (P1 & C1 & A1).
      destruct (IH _ _ _ Eb P1 C1) as (P2 & C2 & A2).
      split; [exact P2|]. split; [exact C2|]. apply Forall_app. auto. }
  intros Hrun. apply (Hinv evs (mount st) w out Hrun); [exact Hst|reflexivity].
Qed.

Lemma locked_session_stays_locked_witness :
  placed (afterRun (mount {[ hasPlacedMark := "true" ]})
            [MapClick examplePos; RemoteInsert exampleMarker]) = true ∧
  formOpen (afterRun (mount {[ hasPlacedMark := "true" ]})
              [MapClick examplePos; RemoteInsert exampleMarker]) = false ∧
  Forall (λ a, startsCall a = false)
         [Alert "You already placed a mark in this session"].
Proof.
  apply (locked_session_stays_locked {[ hasPlacedMark := "true" ]}
           [MapClick examplePos; RemoteInsert exampleMarker]).
  - vm_compute. reflexivity.
  - vm_compute. reflexivity.
Defined.
